(** * deepface: the VGG face recognizer

    A shallow embedding of [deepface/recognizers/recognizer_vgg.py]:
    [get_new_rois], [extract_features], [detect] and [tag_faces] of the class
    [FaceRecognizerVGG], together with the parts of the Python runtime they
    rest on (exceptions, truthiness, slicing, [list.sort]) and an interface
    for the numpy primitives they call. *)

From Stdlib Require Import String.
From Stdlib Require Import List ZArith Lia Bool Permutation Sorted.
From Stdlib Require Import PeanoNat Floats.
Import ListNotations.

Set Implicit Arguments.

(** ** Python runtime *)

Module Py.

(** The exceptions the modelled code can raise. *)
Inductive exn : Type :=
  | UnboundLocalError
  | IndexError
  | ValueError.

(** The outcome of a call: a value, or a raised exception. *)
Inductive outcome (A : Type) : Type :=
  | Return (a : A)
  | Raise (e : exn).
Arguments Return {A} a.
Arguments Raise {A} e.

Definition bind {A B} (c : outcome A) (k : A -> outcome B) : outcome B :=
  match c with
  | Return a => k a
  | Raise e => Raise e
  end.

(** A comprehension whose element expression may raise. *)
Fixpoint for_each {A B} (f : A -> outcome B) (l : list A) : outcome (list B) :=
  match l with
  | [] => Return []
  | x :: l' =>
      bind (f x) (fun y => bind (for_each f l') (fun ys => Return (y :: ys)))
  end.

(** [l[i]] for a non-negative index. *)
Definition getitem {A} (l : list A) (i : nat) : outcome A :=
  match nth_error l i with
  | Some x => Return x
  | None => Raise IndexError
  end.

(** Truthiness of an optional sequence: [None] and [[]] are falsy. *)
Definition truthy {A} (o : option (list A)) : bool :=
  match o with
  | Some (_ :: _) => true
  | _ => false
  end.

(** [l[start:]] for any integer [start]: a negative [start] counts from the
    end, and the bounds are clipped to the sequence. *)
Definition slice_from {A} (start : Z) (l : list A) : list A :=
  let n := Z.of_nat (length l) in
  let lo := if (start <? 0)%Z then Z.max 0 (start + n) else Z.min start n in
  skipn (Z.to_nat lo) l.

(** [l[::-1]]. *)
Definition reversed {A} (l : list A) : list A := rev l.

(** [l[:n]]. *)
Definition slice_to {A} (n : nat) (l : list A) : list A := firstn n l.

Section Sort.
Context {A K : Type}.
Variable lt : K -> K -> bool.
Variable key : A -> K.

(** One step of a stable ascending sort: [x], which precedes every element
    of [l] in the input, goes after the elements strictly below it and
    before the first element that is not. *)
Fixpoint insert (x : A) (l : list A) : list A :=
  match l with
  | [] => [x]
  | y :: l' => if lt (key y) (key x) then y :: insert x l' else x :: y :: l'
  end.

(** A stable ascending sort that compares keys with [<] only.  Whenever
    [<] is a strict weak order on the keys there is one stable sorted
    arrangement, so this is the list that [list.sort(key=...)] leaves. *)
Fixpoint sort_ascending (l : list A) : list A :=
  match l with
  | [] => []
  | x :: l' => insert x (sort_ascending l')
  end.

(** [l.sort(key=key, reverse=True)]: the list is reversed, sorted
    ascending and stably, and reversed again, so that elements with equal
    keys keep their original order. *)
Definition sort_reverse (l : list A) : list A :=
  rev (sort_ascending (rev l)).
End Sort.

End Py.

Import Py.

Notation "x <- c ;; k" := (Py.bind c (fun x => k))
  (at level 61, c at next level, right associativity).
Notation "' pat <- c ;; k" := (Py.bind c (fun x => match x with pat => k end))
  (at level 61, pat pattern, c at next level, right associativity).

(** ** numpy *)

(** The numeric primitives the recognizer calls, over a scalar type [F]
    (numpy's float32 and float64).  Vectors are lists of scalars; embeddings
    and database entries share the network's fixed width, so [np_dot] is
    taken on vectors of one length. *)
Class Numpy (F : Type) : Type := {
  (** [a < b] *)
  f_lt : F -> F -> bool;
  (** [a <= b] *)
  f_le : F -> F -> bool;
  (** [a / b] on scalars *)
  f_div : F -> F -> F;
  (** [np.linalg.norm(v, 2)] *)
  np_norm : list F -> F;
  (** [np.dot(u, v)] *)
  np_dot : list F -> list F -> F;
  (** [v.argsort()] *)
  np_argsort : list F -> list nat
}.

(** [a >= b] *)
Definition f_ge {F} `{Numpy F} (a b : F) : bool := f_le b a.

(** [v / s]: a vector divided by a scalar, element by element. *)
Definition np_vdiv {F} `{Numpy F} (v : list F) (s : F) : list F :=
  map (fun x => f_div x s) v.

(** [np.vstack(blocks)]: the rows of the blocks, in order; an empty list of
    blocks is refused. *)
Definition np_vstack {A} (blocks : list (list A)) : outcome (list A) :=
  match blocks with
  | [] => Raise ValueError
  | _ => Return (concat blocks)
  end.

(** ** deepface.utils.common *)

(** Modelled from the spec: [grouper] of [deepface.utils.common], which is not
    among the sources.  It groups the items into consecutive chunks of exactly
    [n]; the last chunk, if short, is padded with [fillvalue]; no item, no
    chunk.  [cur] holds the items already drawn for the chunk under
    construction, last first. *)
Fixpoint grouper_from {A} (n : nat) (fillvalue : A) (cur : list A) (l : list A)
  : list (list A) :=
  match l with
  | [] =>
      match cur with
      | [] => []
      | _ => [rev cur ++ repeat fillvalue (n - length cur)]
      end
  | x :: l' =>
      if S (length cur) =? n
      then rev (x :: cur) :: grouper_from n fillvalue [] l'
      else grouper_from n fillvalue (x :: cur) l'
  end.

Definition grouper {A} (l : list A) (n : nat) (fillvalue : A) : list (list A) :=
  match n with
  | 0 => []
  | _ => grouper_from n fillvalue [] l
  end.

(** ** Faces *)

(** A [Face] object as the detector leaves it: its geometry, and the
    attributes the recognizer assigns; an attribute not yet assigned is
    [None]. *)
Record Face (G F : Type) : Type := {
  geometry : G;
  face_feature : option (list F);
  face_name : option string;
  face_score : option F
}.

Definition set_face_feature {G F} (v : list F) (x : Face G F) : Face G F :=
  {| geometry := geometry x; face_feature := Some v;
     face_name := face_name x; face_score := face_score x |}.

Definition set_face_name {G F} (n : string) (x : Face G F) : Face G F :=
  {| geometry := geometry x; face_feature := face_feature x;
     face_name := Some n; face_score := face_score x |}.

Definition set_face_score {G F} (s : F) (x : Face G F) : Face G F :=
  {| geometry := geometry x; face_feature := face_feature x;
     face_name := face_name x; face_score := Some s |}.

(** Face objects live in a store and are passed by reference: a sequence of
    faces is a list of addresses, and one object may occur in it twice. *)
Definition store (G F : Type) : Type := nat -> Face G F.

Definition update {G F} (h : store G F) (a : nat) (g : Face G F -> Face G F)
  : store G F :=
  fun b => if Nat.eqb b a then g (h b) else h b.

(** ** Collaborators *)

(** What the recognizer takes from outside this file: images and regions
    (numpy arrays with a shape), [cv2.resize], [np.zeros], [get_roi] of
    [deepface.utils.common], the network of the persistent session (its
    [prob] and [fc7] nodes, one output row per input image) and
    [np.squeeze]. *)
Class Collaborators (F : Type) : Type := {
  Image : Type;
  Region : Type;
  Tensor : Type;
  Geometry : Type;
  roi_shape : Region -> nat * nat;
  cv2_resize : Region -> nat * nat -> Region;
  np_zeros : nat * nat -> Region;
  get_roi : Image -> Face Geometry F -> Region;
  net_prob : Region -> list F;
  net_fc7 : Region -> Tensor;
  np_squeeze : Tensor -> list F
}.

(** ** The recognizer *)

(** [DeepFaceConfs.get()['recognizer']]: the keys the recognizer reads. *)
Record DeepFaceConfs (F : Type) : Type := {
  topk : Z;
  score_th : F
}.

(** The attributes of a [FaceRecognizerVGG] that its methods read; [db] is
    [None] or the items of the dictionary, in iteration order. *)
Record FaceRecognizerVGG (F : Type) : Type := {
  batch_size : nat;
  input_hw : nat * nat;
  class_names : list string;
  db : option (list (string * list F))
}.

(** The dictionary [detect] returns. *)
Record Result (F : Type) : Type := {
  output : list (list F);
  feature : list (list F);
  name : list (list (string * F))
}.

Section Recognizer.
Context {F : Type} {NP : Numpy F} {CO : Collaborators F}.

Local Abbreviation face := (Face Geometry F).
Local Abbreviation heap := (store Geometry F).

Variable conf : DeepFaceConfs F.
Variable self : FaceRecognizerVGG F.

Definition face_to_roi (h : heap) (npimg : Image) (faces : list nat)
    : list Region :=
    map (fun a => get_roi npimg (h a)) faces.

Definition get_new_rois (rois : list Region) : list Region :=
    map (fun roi =>
           if negb (fst (roi_shape roi) =? fst (input_hw self))
              || negb (snd (roi_shape roi) =? snd (input_hw self))
           then cv2_resize roi (input_hw self)
           else roi) rois.

(** [persistent_sess.run([network['prob'], network['fc7']], ...)]. *)
Definition sess_run (roi_chunk : list Region) : list (list F) * list Tensor :=
    (map net_prob roi_chunk, map net_fc7 roi_chunk).

(** The loop of [extract_features] over the chunks, with its two
    accumulators. *)
Fixpoint run_chunks (chunks : list (list Region))
    (probs feats : list (list (list F))) : list (list (list F)) * list (list (list F)) :=
    match chunks with
    | [] => (probs, feats)
    | roi_chunk :: rest =>
        let '(prob, feat) := sess_run roi_chunk in
        let feat := map np_squeeze feat in
        run_chunks rest (probs ++ [prob]) (feats ++ [feat])
    end.

Definition extract_features (h : heap) (npimg : Image)
    (rois : option (list Region)) (faces : option (list nat))
    : outcome (list (list F) * list (list F)) :=
    let rois :=
      if negb (truthy rois) && truthy faces
      then Some (face_to_roi h npimg (match faces with Some l => l | None => [] end))
      else rois in
    match rois with
    | Some (r :: rs) =>
        let rois := r :: rs in
        let new_rois := get_new_rois rois in
        let '(probs, feats) :=
          run_chunks (grouper new_rois (batch_size self) (np_zeros (input_hw self)))
                     [] [] in
        probs <- np_vstack probs ;;
        feats <- np_vstack feats ;;
        Return (slice_to (length rois) probs, slice_to (length rois) feats)
    | _ =>
        (* [new_rois] was never assigned *)
        Raise UnboundLocalError
    end.

(** The cosine similarity of line 154, computed without any check. *)
Definition similarity (feat db_feature : list F) : F :=
    np_dot (np_vdiv feat (np_norm feat)) (np_vdiv db_feature (np_norm db_feature)).

(** The scores of one query against the database, in iteration order. *)
Definition db_scores (items : list (string * list F)) (feat : list F)
    : list (string * F) :=
    map (fun '(db_name, db_feature) => (db_name, similarity feat db_feature)) items.

(** The candidates of one query when no database is loaded. *)
Definition class_candidates (prop : list F) : outcome (list (string * F)) :=
    for_each (fun idx =>
                cls <- getitem (class_names self) idx ;;
                p <- getitem prop idx ;;
                Return (cls, p))
             (reversed (slice_from (- topk conf) (np_argsort prop))).

Definition detect (h : heap) (npimg : Image)
    (rois : option (list Region)) (faces : option (list nat))
    : outcome (Result F) :=
    '(probs, feats) <- extract_features h npimg rois faces ;;
    names <- match db self with
             | None => for_each class_candidates probs
             | Some items =>
                 Return (map (fun feat =>
                                sort_reverse f_lt snd (db_scores items feat))
                             feats)
             end ;;
    Return {| output := probs; feature := feats; name := names |}.

(** The body of the loop of [tag_faces] for one face. *)
Definition tag_face (result : Result F) (face_idx : nat) (a : nat) (h : heap)
    : heap * outcome unit :=
    match getitem (feature result) face_idx with
    | Raise e => (h, Raise e)
    | Return feat =>
        let h := update h a (set_face_feature feat) in
        match (cands <- getitem (name result) face_idx ;; getitem cands 0) with
        | Raise e => (h, Raise e)
        | Return (nm, score) =>
            if f_lt score (score_th conf)
            then (h, Return tt)
            else (update (update h a (set_face_name nm)) a (set_face_score score),
                  Return tt)
        end
    end.

Fixpoint tag_loop (result : Result F) (face_idx : nat) (faces : list nat)
    (h : heap) : heap * outcome unit :=
    match faces with
    | [] => (h, Return tt)
    | a :: rest =>
        match tag_face result face_idx a h with
        | (h', Return _) => tag_loop result (S face_idx) rest h'
        | (h', Raise e) => (h', Raise e)
        end
    end.

(** [tag_faces]: the store it leaves, and the list of faces it returns. *)
Definition tag_faces (h : heap) (faces : list nat) (result : Result F)
    : heap * outcome (list nat) :=
    let '(h', o) := tag_loop result 0 faces h in
    (h', _ <- o ;; Return faces).

End Recognizer.


(** ** A binary64 instance of the numpy interface

    IEEE arithmetic on Rocq's primitive floats, with sums taken from left to
    right.  numpy computes the embeddings in float32; what is proved of this
    instance (0/0 is NaN, NaN propagates through sums and products, every
    comparison with NaN is false) holds in both formats and for every order
    of summation. *)

Module Float64.

Definition sum_squares (v : list float) : float :=
  fold_left (fun acc x => PrimFloat.add acc (PrimFloat.mul x x)) v 0%float.

Definition norm (v : list float) : float := PrimFloat.sqrt (sum_squares v).

Definition dot (u v : list float) : float :=
  fold_left (fun acc xy => PrimFloat.add acc (PrimFloat.mul (fst xy) (snd xy)))
            (combine u v) 0%float.

(** The indices of [v], sorted by value (for a row without NaN). *)
Definition argsort (v : list float) : list nat :=
  map fst (sort_ascending PrimFloat.ltb snd (combine (seq 0 (length v)) v)).

(** A non-empty vector whose entries are all zero (of either sign). *)
Definition zero_vector (v : list float) : Prop :=
  v <> [] /\ forallb (fun x => PrimFloat.eqb x 0%float) v = true.

(** One score per database entry, and the score NaN for every entry such
    that the query or the entry is a zero vector. *)
Definition nan_where_zero (items : list (string * list float))
  (feat : list float) (cands : list (string * float)) : Prop :=
  length cands = length items
  /\ forall db_name db_feature,
       In (db_name, db_feature) items ->
       (zero_vector feat /\ db_feature <> [])
       \/ (feat <> [] /\ zero_vector db_feature) ->
       In (db_name, nan) cands.

#[export] Instance float64 : Numpy float := {|
  f_lt := PrimFloat.ltb;
  f_le := PrimFloat.leb;
  f_div := PrimFloat.div;
  np_norm := norm;
  np_dot := dot;
  np_argsort := argsort
|}.

End Float64.

(** ** A stub embedding model

    Regions are a shape and a label; the network answers from the label
    alone.  Label 0 is the zero-filled region. *)

Module Stub.
Import Float64.

Definition region : Type := (nat * nat) * nat.

Definition prob_of (r : region) : list float :=
  match snd r with
  | 1 => [0.125; 0.75; 0.125]%float
  | 2 => [0.5; 0.125; 0.375]%float
  | _ => [0.25; 0.25; 0.5]%float
  end.

Definition fc7_of (r : region) : list float :=
  match snd r with
  | 1 => [1; 0]%float
  | 2 => [0; 2]%float
  | 3 => [3; 4]%float
  | _ => [0; 0]%float
  end.

#[export] Instance stub : Collaborators float := {|
  Image := unit;
  Region := region;
  Tensor := list float;
  Geometry := nat;
  roi_shape := fst;
  cv2_resize := fun r hw => (hw, snd r);
  np_zeros := fun hw => (hw, 0);
  get_roi := fun _ x => ((100, 80), geometry x);
  net_prob := prob_of;
  net_fc7 := fc7_of;
  np_squeeze := fun t => t
|}.

Definition names3 : list string := ["ann"; "bob"; "cy"]%string.

(** A recognizer with the constructor's batch size and the given database. *)
Definition recognizer (d : option (list (string * list float)))
  : FaceRecognizerVGG float :=
  {| batch_size := 4; input_hw := (224, 224); class_names := names3; db := d |}.

Definition confs (k : Z) : DeepFaceConfs float :=
  {| topk := k; score_th := 0.875%float |}.

(** A store of fresh faces: the face at address [a] has geometry [a]. *)
Definition fresh : store nat float :=
  fun a => {| geometry := a; face_feature := None; face_name := None;
              face_score := None |}.

Definition roi (label : nat) : region := ((224, 224), label).

(** Databases: one entry; two entries that tie for the query [[1; 0]]; an
    entry that is a zero vector; no entry. *)
Definition db_one : list (string * list float) :=
  [("ann"%string, [1; 0]%float)].

Definition db_ties : list (string * list float) :=
  [("ann"%string, [1; 0]%float); ("bob"%string, [2; 0]%float);
   ("cy"%string, [0; 1]%float)].

Definition db_zero : list (string * list float) :=
  [("ann"%string, [0; 1]%float); ("bob"%string, [0; 0]%float);
   ("cy"%string, [1; 0]%float)].

Definition five : option (list region) :=
  Some [roi 1; roi 2; roi 3; roi 1; roi 2].

Definition three : option (list region) := Some [roi 1; roi 2; roi 3].

Definition two : option (list region) := Some [roi 1; roi 2].

Definition no_result : Result float :=
  {| output := []; feature := []; name := [] |}.

(** The value a call returned. *)
Definition returned {A} (o : outcome A) (default : A) : A :=
  match o with
  | Return a => a
  | Raise _ => default
  end.

(** What [detect] returns for the faces at the addresses 1 and 2 of the
    fresh store and the database [db_one]: the face at 1 scores 1, the face
    at 2 scores 0. *)
Definition ranked_1_2 : Result float :=
  returned (detect (confs 2) (recognizer (Some db_one)) fresh tt None
                   (Some [1; 2]))
           no_result.

End Stub.


(** ** Vocabulary of the statements *)

(** Keys that never decrease from [x] to [y]. *)
Definition ascends {A K} (le : K -> K -> bool) (key : A -> K) (x y : A) : Prop :=
  le (key x) (key y) = true.

(** The key of [x] compares equal to [s]. *)
Definition ties {A K} (le : K -> K -> bool) (key : A -> K) (s : K) (x : A)
  : bool :=
  le s (key x) && le (key x) s.

Section Vocabulary.
Context {F : Type} {NP : Numpy F}.

(** The laws of a total preorder at three scalars: [<=] is the negation of
    the converse [<], [<] is asymmetric, [<=] is transitive. *)
Definition ordered3 (a b c : F) : bool :=
  Bool.eqb (f_le a b) (negb (f_lt b a))
  && implb (f_lt a b) (negb (f_lt b a))
  && implb (f_le a b && f_le b c) (f_le a c).

(** [<] and [<=] order the scalars of [ks] totally.  For IEEE floats this
    says that none of them is a NaN. *)
Definition ordered_on (ks : list F) : bool :=
  forallb (fun a => forallb (fun b => forallb (ordered3 a b) ks) ks) ks.

(** Two scalars that compare equal. *)
Definition tied (s x : F) : bool := f_le s x && f_le x s.

(** Scores that are non-increasing by index. *)
Definition descending (cands : list (string * F)) : Prop :=
  StronglySorted (fun c d => f_ge (snd c) (snd d) = true) cands.

Definition le_at (p : list F) (i j : nat) : bool :=
  match nth_error p i, nth_error p j with
  | Some x, Some y => f_le x y
  | _, _ => false
  end.

Fixpoint pairwiseb {A} (R : A -> A -> bool) (l : list A) : bool :=
  match l with
  | [] => true
  | x :: l' => forallb (R x) l' && pairwiseb R l'
  end.

Fixpoint nodupb (l : list nat) : bool :=
  match l with
  | [] => true
  | x :: l' => negb (existsb (Nat.eqb x) l') && nodupb l'
  end.

(** The contract of [argsort] on the row [p]: the result lists every index
    of [p] once, and the values at these indices never decrease. *)
Definition argsort_ok (p : list F) : bool :=
  let r := np_argsort p in
  (length r =? length p)
  && forallb (fun i => i <? length p) r
  && nodupb r
  && pairwiseb (le_at p) r.

End Vocabulary.

Section Runs.
Context {F : Type} {NP : Numpy F} {CO : Collaborators F}.

(** The regions [extract_features] works on: [rois] when it is given and
    not empty, else the regions of [faces]. *)
Definition input_regions (h : store Geometry F) (npimg : Image)
  (rois : option (list Region)) (faces : option (list nat)) : list Region :=
  match rois, faces with
  | Some (r :: rs), _ => r :: rs
  | _, Some (a :: l) => face_to_roi h npimg (a :: l)
  | _, _ => []
  end.

(** The network's answer for one region. *)
Definition embed (roi : Region) : list F := np_squeeze (net_fc7 roi).

(** The ranking of the whole database for one query. *)
Definition db_ranking (items : list (string * list F)) (feat : list F)
  : list (string * F) :=
  sort_reverse f_lt snd (db_scores items feat).

(** A candidate built from the class index [idx] of the row [prop]. *)
Definition class_candidate (self : FaceRecognizerVGG F) (prop : list F)
  (idx : nat) (c : string * F) : Prop :=
  nth_error (class_names self) idx = Some (fst c)
  /\ nth_error prop idx = Some (snd c).

(** The candidates of the row [prop] on the fallback path: min(topk,
    numClasses) of them, each a class name with its probability in the row,
    with probabilities that never increase; all classes, when [topk] is at
    least their number. *)
Definition topk_candidates (conf : DeepFaceConfs F) (self : FaceRecognizerVGG F)
  (prop : list F) (cands : list (string * F)) : Prop :=
  length cands = Nat.min (Z.to_nat (topk conf)) (length (class_names self))
  /\ descending cands
  /\ (forall c, In c cands -> exists idx, class_candidate self prop idx c)
  /\ ((Z.of_nat (length (class_names self)) <= topk conf)%Z ->
      forall idx cls q,
        nth_error (class_names self) idx = Some cls ->
        nth_error prop idx = Some q -> In (cls, q) cands).

(** The candidates of the query [feat] on the database path: the sorted
    (name, similarity) pairs of all entries, one per entry. *)
Definition full_ranking (items : list (string * list F)) (feat : list F)
  (cands : list (string * F)) : Prop :=
  cands = sort_reverse f_lt snd (db_scores items feat)
  /\ Permutation cands (db_scores items feat)
  /\ length cands = length items.

(** Scores that never increase, ties standing in the iteration order of the
    database. *)
Definition stable_descending (items : list (string * list F)) (feat : list F)
  (cands : list (string * F)) : Prop :=
  descending cands
  /\ forall s, In s (map snd (db_scores items feat)) ->
       filter (fun c => tied s (snd c)) cands
       = filter (fun c => tied s (snd c)) (db_scores items feat).

(** The store when the loop of [tag_faces] arrives at index [i]. *)
Definition store_at (conf : DeepFaceConfs F) (result : Result F)
  (faces : list nat) (h : store Geometry F) (i : nat) : store Geometry F :=
  fst (tag_loop conf result 0 (firstn i faces) h).

(** The loop of [tag_faces] arrives at index [i]: no earlier face raised. *)
Definition reaches (conf : DeepFaceConfs F) (result : Result F)
  (faces : list nat) (h : store Geometry F) (i : nat) : Prop :=
  snd (tag_loop conf result 0 (firstn i faces) h) = Return tt.

(** From index [i] on, every face of [faces] has a feature and at least one
    candidate in [result]. *)
Definition all_ranked (result : Result F) (i : nat) (faces : list nat) : Prop :=
  forall j, j < length faces ->
    exists feat c cands,
      nth_error (feature result) (i + j) = Some feat
      /\ nth_error (name result) (i + j) = Some (c :: cands).

End Runs.

(** The assignments made to one face object: its attributes that were
    assigned, with the value assigned last. *)
Record patch (F : Type) : Type := {
  p_feature : option (list F);
  p_name : option string;
  p_score : option F
}.

Definition or_else {A} (new old : option A) : option A :=
  match new with
  | Some _ => new
  | None => old
  end.

Definition apply_patch {G F} (p : patch F) (x : Face G F) : Face G F :=
  {| geometry := geometry x;
     face_feature := or_else (p_feature p) (face_feature x);
     face_name := or_else (p_name p) (face_name x);
     face_score := or_else (p_score p) (face_score x) |}.

Definition patch_then {F} (p q : patch F) : patch F :=
  {| p_feature := or_else (p_feature q) (p_feature p);
     p_name := or_else (p_name q) (p_name p);
     p_score := or_else (p_score q) (p_score p) |}.

Definition no_patch {F} : patch F :=
  {| p_feature := None; p_name := None; p_score := None |}.

(** ** The network of the constructor *)

(** The loop of [__init__] over the layers of the weight file builds a
    TensorFlow graph: a node is the expression that computes it. *)
Module Net.

Inductive padding : Type :=
  | SAME
  | VALID.

Section Graph.
Variables Kernel Bias Average : Type.

Inductive node : Type :=
  | image
  | subtract (x : node) (average_image : Average)
  | conv2d (x : node) (kernel : Kernel) (strides : nat * nat * nat * nat)
           (p : padding)
  | bias_add (x : node) (bias : Bias)
  | relu (x : node)
  | max_pool (x : node) (ksize strides : nat * nat * nat * nat) (p : padding)
  | reshape (x : node) (columns : nat)
  | softmax (x : node).

(** The fields of a layer that the loop reads, by the layer's type; a
    type the loop does not know is kept as it is spelled. *)
Inductive layer_fields : Type :=
  | Conv (stride : nat * nat) (kernel : Kernel) (bias : Bias)
  | Relu
  | Pool (stride : nat * nat) (pool : nat * nat)
  | Softmax
  | Other (layer_type : string).

Record layer : Type := {
  layer_name : string;
  fields : layer_fields
}.

(** A dictionary from layer names to nodes, the newest binding first. *)
Definition dict : Type := list (string * node).

Definition dict_set (k : string) (v : node) (d : dict) : dict := (k, v) :: d.

(** [d[k]]; [None] stands for [KeyError]. *)
Fixpoint dict_get (k : string) (d : dict) : option node :=
  match d with
  | [] => None
  | (k', v) :: d' => if String.eqb k' k then Some v else dict_get k d'
  end.

(** [name[:2] == 'fc'] *)
Definition is_fc (name : string) : bool := String.eqb (substring 0 2 name) "fc".

(** The body of the loop for one layer: the new value of [current]. *)
Definition add_layer (num_classes : nat) (l : layer) (current : node) : node :=
  match fields l with
  | Conv stride kernel bias =>
      let p := if is_fc (layer_name l) then VALID else SAME in
      let conv := conv2d current kernel (1, fst stride, fst stride, 1) p in
      bias_add conv bias
  | Relu => relu current
  | Pool stride pool =>
      max_pool current (1, fst pool, snd pool, 1)
               (1, fst stride, fst stride, 1) SAME
  | Softmax => softmax (reshape current num_classes)
  | Other _ => current
  end.

(** The loop: [current] and [network] after the layers. *)
Fixpoint build (num_classes : nat) (layers : list layer) (current : node)
  (network : dict) : node * dict :=
  match layers with
  | [] => (current, network)
  | l :: rest =>
      let current := add_layer num_classes l current in
      build num_classes rest current (dict_set (layer_name l) current network)
  end.

(** [self.network] as the constructor leaves it. *)
Definition network_of (average_image : Average) (num_classes : nat)
  (layers : list layer) : dict :=
  snd (build num_classes layers (subtract image average_image) []).

(** The node after the layers, from the normalized image. *)
Definition forward (average_image : Average) (num_classes : nat)
  (layers : list layer) : node :=
  fold_left (fun current l => add_layer num_classes l current) layers
            (subtract image average_image).

End Graph.

End Net.

(** ** A stub with the sizes of [cv2.resize] *)

Module StubCv.

(** [cv2.resize] returns [dsize], given as (width, height), as a shape
    (height, width). *)
#[export] Instance stub_cv : Collaborators float := {|
  Image := unit;
  Region := Stub.region;
  Tensor := list float;
  Geometry := nat;
  roi_shape := fst;
  cv2_resize := fun r dsize => ((snd dsize, fst dsize), snd r);
  np_zeros := fun hw => (hw, 0);
  get_roi := fun _ x => ((100, 80), geometry x);
  net_prob := Stub.prob_of;
  net_fc7 := Stub.fc7_of;
  np_squeeze := fun t => t
|}.

(** A recognizer whose input is not square. *)
Definition wide : FaceRecognizerVGG float :=
  {| batch_size := 4; input_hw := (224, 200); class_names := Stub.names3;
     db := None |}.

(** The layers of a small network, with unit weights. *)
Definition layers7 : list (Net.layer unit unit) :=
  [ {| Net.layer_name := "conv1"; Net.fields := Net.Conv (1, 1) tt tt |};
    {| Net.layer_name := "relu1"; Net.fields := Net.Relu _ _ |};
    {| Net.layer_name := "pool1"; Net.fields := Net.Pool _ _ (2, 2) (2, 2) |};
    {| Net.layer_name := "fc7"; Net.fields := Net.Conv (1, 1) tt tt |};
    {| Net.layer_name := "relu7"; Net.fields := Net.Relu _ _ |};
    {| Net.layer_name := "drop7"; Net.fields := Net.Other _ _ "dropout" |};
    {| Net.layer_name := "fc8"; Net.fields := Net.Conv (1, 1) tt tt |};
    {| Net.layer_name := "prob"; Net.fields := Net.Softmax _ _ |} ]%string.

End StubCv.

(** ** Vocabulary of the further statements *)

Section MoreVocabulary.
Context {F : Type} {CO : Collaborators F}.

(** [cv2.resize(src, dsize)] reads [dsize] as (width, height) and returns
    an array of shape (height, width). *)
Definition cv2_size_contract : Prop :=
  forall (r : Region) (w h : nat), roi_shape (cv2_resize r (w, h)) = (h, w).

(** The recognizer with another batch size. *)
Definition with_batch_size (self : FaceRecognizerVGG F) (B : nat)
  : FaceRecognizerVGG F :=
  {| batch_size := B; input_hw := input_hw self;
     class_names := class_names self; db := db self |}.

(** A face has a name exactly when it has a score, and then it has a
    feature. *)
Definition consistent (x : Face Geometry F) : Prop :=
  (face_name x = None <-> face_score x = None)
  /\ (face_name x <> None -> face_feature x <> None).

(** Index [i] of [result] has a feature and at least one candidate. *)
Definition ranked_at (result : Result F) (i : nat) : Prop :=
  exists feat c cands,
    nth_error (feature result) i = Some feat
    /\ nth_error (name result) i = Some (c :: cands).

(** The top candidate of index [i], as the loop reads it. *)
Definition top_candidate (result : Result F) (i : nat) : outcome (string * F) :=
  cands <- getitem (name result) i ;; getitem cands 0.

End MoreVocabulary.

(** ** Batches *)

Section Batches.
Context {A : Type}.
Variable fillvalue : A.

Lemma grouper_from_firstn (n : nat) (l cur : list A) :
  firstn (length cur + length l) (concat (grouper_from n fillvalue cur l))
  = rev cur ++ l.
Proof.
  revert cur; induction l as [|x l IH]; intros cur.
  - destruct cur as [|c cur]; [reflexivity|].
    cbn [grouper_from concat length]. rewrite Nat.add_0_r, app_nil_r.
    replace (S (length cur)) with (length (rev (c :: cur)) + 0)
      by (rewrite length_rev; cbn; lia).
    rewrite firstn_app_2. cbn [firstn]. now rewrite app_nil_r.
  - cbn [grouper_from].
    destruct (S (length cur) =? n).
    + cbn [concat].
      replace (length cur + length (x :: l))
        with (length (rev (x :: cur)) + length l)
        by (rewrite length_rev; cbn; lia).
      rewrite firstn_app_2.
      specialize (IH []). cbn [length rev app Nat.add] in IH.
      rewrite IH. cbn [rev]. now rewrite <- app_assoc.
    + specialize (IH (x :: cur)).
      replace (length cur + length (x :: l))
        with (length (x :: cur) + length l) by (cbn; lia).
      rewrite IH. cbn [rev]. now rewrite <- app_assoc.
Qed.

Lemma grouper_from_length (n : nat) (l cur : list A) :
  length cur < n ->
  Forall (fun chunk => length chunk = n) (grouper_from n fillvalue cur l).
Proof.
  revert cur; induction l as [|x l IH]; intros cur Hcur.
  - destruct cur as [|c cur]; [constructor|].
    cbn [grouper_from]. constructor; [|constructor].
    rewrite length_app, length_rev, repeat_length. lia.
  - cbn [grouper_from].
    destruct (Nat.eqb_spec (S (length cur)) n) as [E|E].
    + constructor.
      * rewrite length_rev. exact E.
      * apply IH. cbn. lia.
    + apply IH. cbn. lia.
Qed.

Lemma grouper_from_nonempty (n : nat) (l cur : list A) :
  l <> [] -> grouper_from n fillvalue cur l <> [].
Proof.
  revert cur; induction l as [|x l IH]; intros cur Hl; [congruence|].
  cbn [grouper_from]. destruct (S (length cur) =? n); [discriminate|].
  destruct l as [|y l].
  - cbn. discriminate.
  - apply IH. discriminate.
Qed.

Lemma grouper_firstn (n : nat) (l : list A) :
  0 < n -> firstn (length l) (concat (grouper l n fillvalue)) = l.
Proof.
  intros Hn. destruct n as [|n]; [lia|]. unfold grouper.
  exact (grouper_from_firstn (S n) l []).
Qed.

Lemma grouper_length (n : nat) (l : list A) :
  Forall (fun chunk => length chunk = n) (grouper l n fillvalue).
Proof.
  destruct n as [|n]; [constructor|]. unfold grouper.
  apply grouper_from_length. cbn. lia.
Qed.

Lemma grouper_nonempty (n : nat) (l : list A) :
  0 < n -> l <> [] -> grouper l n fillvalue <> [].
Proof.
  intros Hn Hl. destruct n as [|n]; [lia|]. unfold grouper.
  now apply grouper_from_nonempty.
Qed.

End Batches.

(** ** [extract_features] *)

Section ExtractFeatures.
Context {F : Type} {NP : Numpy F} {CO : Collaborators F}.
Variable self : FaceRecognizerVGG F.

Lemma run_chunks_spec (chunks : list (list Region)) probs feats :
  run_chunks chunks probs feats
  = (probs ++ map (map net_prob) chunks, feats ++ map (map embed) chunks).
Proof.
  revert probs feats; induction chunks as [|c chunks IH]; intros probs feats.
  - cbn. now rewrite !app_nil_r.
  - cbn [run_chunks sess_run]. rewrite IH, <- !app_assoc, map_map. reflexivity.
Qed.

Lemma get_new_rois_length (rois : list Region) :
  length (get_new_rois self rois) = length rois.
Proof. apply length_map. Qed.

(** What [extract_features] computes from a non-empty list of regions. *)
Lemma regions_features (regions : list Region) :
  0 < batch_size self -> regions <> [] ->
  let new_rois := get_new_rois self regions in
  (let '(probs, feats) :=
     run_chunks (grouper new_rois (batch_size self) (np_zeros (input_hw self)))
                [] [] in
   probs <- np_vstack probs ;;
   feats <- np_vstack feats ;;
   Return (slice_to (length regions) probs, slice_to (length regions) feats))
  = Return (map net_prob new_rois, map embed new_rois).
Proof.
  intros HB Hne new_rois.
  rewrite run_chunks_spec. cbn [app].
  assert (Hnew : new_rois <> []).
  { intros E. apply Hne. apply length_zero_iff_nil.
    rewrite <- (get_new_rois_length regions). fold new_rois. now rewrite E. }
  pose proof (grouper_nonempty (np_zeros (input_hw self)) HB Hnew) as Hch.
  pose proof (grouper_firstn (np_zeros (input_hw self)) new_rois HB) as Hfst.
  destruct (grouper new_rois (batch_size self) (np_zeros (input_hw self)))
    as [|c chunks] eqn:E; [congruence|].
  cbn [map np_vstack bind]. unfold slice_to.
  change (map net_prob c :: map (map net_prob) chunks)
    with (map (map net_prob) (c :: chunks)).
  change (map embed c :: map (map embed) chunks)
    with (map (map embed) (c :: chunks)).
  rewrite <- !concat_map, !firstn_map.
  rewrite <- (get_new_rois_length regions). fold new_rois.
  now rewrite Hfst.
Qed.

Lemma extract_features_regions (h : store Geometry F) (npimg : Image)
  (rois : option (list Region)) (faces : option (list nat)) :
  0 < batch_size self ->
  input_regions h npimg rois faces <> [] ->
  extract_features self h npimg rois faces
  = Return (map net_prob (get_new_rois self (input_regions h npimg rois faces)),
            map embed (get_new_rois self (input_regions h npimg rois faces))).
Proof.
  intros HB Hne. unfold extract_features, input_regions in *.
  destruct rois as [[|r rs]|]; cbn [truthy negb andb].
  - destruct faces as [[|a l]|]; cbn [truthy]; try congruence.
    cbn [face_to_roi map] in *.
    exact (regions_features HB Hne).
  - exact (regions_features HB Hne).
  - destruct faces as [[|a l]|]; cbn [truthy]; try congruence.
    cbn [face_to_roi map] in *.
    exact (regions_features HB Hne).
Qed.

(** C2 (as amended) -- For every non-empty sequence of N input regions and
    every batch size B >= 1, the batches [extract_features] assembles all
    hold exactly B regions, and the call returns exactly N probability rows
    and N feature rows: row i is the network's answer for region i (resized
    when its shape differs from the input size), whether or not N is a
    multiple of B; the zero-filled padding leaves no trace in the result. *)
Theorem extract_features_round_trip (h : store Geometry F) (npimg : Image)
  (rois : option (list Region)) (faces : option (list nat)) :
  0 < batch_size self ->
  input_regions h npimg rois faces <> [] ->
  let regions := input_regions h npimg rois faces in
  let new_rois := get_new_rois self regions in
  Forall (fun batch => length batch = batch_size self)
         (grouper new_rois (batch_size self) (np_zeros (input_hw self)))
  /\ exists probs feats,
      extract_features self h npimg rois faces = Return (probs, feats)
      /\ length probs = length regions
      /\ length feats = length regions
      /\ forall i roi, nth_error new_rois i = Some roi ->
           nth_error probs i = Some (net_prob roi)
           /\ nth_error feats i = Some (embed roi).
Proof.
  intros HB Hne regions new_rois. split; [apply grouper_length|].
  exists (map net_prob new_rois), (map embed new_rois).
  split; [exact (extract_features_regions h npimg rois faces HB Hne)|].
  rewrite !length_map. unfold new_rois at 1 2.
  rewrite get_new_rois_length. repeat split; try reflexivity.
  - rewrite nth_error_map. now rewrite H.
  - rewrite nth_error_map. now rewrite H.
Qed.

(** C10 -- [extract_features] needs a non-empty [rois] or a non-empty
    [faces]: when [rois] is empty or absent and [faces] is empty or absent,
    it raises (the variable [new_rois] is read before it was ever assigned)
    and returns no pair of empty sequences. *)
Theorem extract_features_needs_regions (h : store Geometry F) (npimg : Image)
  (rois : option (list Region)) (faces : option (list nat)) :
  truthy rois = false -> truthy faces = false ->
  extract_features self h npimg rois faces = Raise UnboundLocalError
  /\ extract_features self h npimg rois faces <> Return ([], []).
Proof.
  intros Hr Hf.
  assert (E : extract_features self h npimg rois faces = Raise UnboundLocalError).
  { unfold extract_features. rewrite Hr, Hf. cbn [negb andb].
    destruct rois as [[|r rs]|]; cbn in Hr; congruence. }
  split; [exact E|]. rewrite E. discriminate.
Qed.

End ExtractFeatures.

(** ** [list.sort] *)

Section SortFacts.
Context {A K : Type}.
Variables lt le : K -> K -> bool.
Variable key : A -> K.

Lemma insert_perm (x : A) (l : list A) :
  Permutation (insert lt key x l) (x :: l).
Proof.
  induction l as [|y l IH]; cbn [insert]; [reflexivity|].
  destruct (lt (key y) (key x)); [|reflexivity].
  rewrite IH. apply perm_swap.
Qed.

Lemma sort_ascending_perm (l : list A) :
  Permutation (sort_ascending lt key l) l.
Proof.
  induction l as [|x l IH]; cbn [sort_ascending]; [reflexivity|].
  rewrite insert_perm. now constructor.
Qed.

Lemma sort_reverse_perm (l : list A) :
  Permutation (sort_reverse lt key l) l.
Proof.
  unfold sort_reverse.
  rewrite <- Permutation_rev, sort_ascending_perm, <- Permutation_rev.
  reflexivity.
Qed.

Lemma sort_reverse_length (l : list A) :
  length (sort_reverse lt key l) = length l.
Proof. apply Permutation_length, sort_reverse_perm. Qed.

Lemma strongly_sorted_app (R : A -> A -> Prop) (l1 l2 : list A) :
  StronglySorted R l1 -> StronglySorted R l2 ->
  (forall x y, In x l1 -> In y l2 -> R x y) ->
  StronglySorted R (l1 ++ l2).
Proof.
  induction l1 as [|a l1 IH]; intros H1 H2 H12; [exact H2|].
  cbn [app]. apply StronglySorted_inv in H1 as [H1 Ha].
  constructor.
  - apply IH; auto. intros x y Hx Hy. apply H12; [now right|exact Hy].
  - apply Forall_app. split; [exact Ha|].
    apply Forall_forall. intros y Hy. apply H12; [now left|exact Hy].
Qed.

Lemma strongly_sorted_rev (R : A -> A -> Prop) (l : list A) :
  StronglySorted R l -> StronglySorted (fun x y => R y x) (rev l).
Proof.
  induction l as [|a l IH]; intros H; [constructor|].
  apply StronglySorted_inv in H as [H Ha]. cbn [rev].
  apply strongly_sorted_app; [now apply IH|repeat constructor|].
  intros x y Hx [<-|[]]. apply in_rev in Hx.
  rewrite Forall_forall in Ha. now apply Ha.
Qed.

(** The keys to be sorted all lie in [dom], which [lt] and [le] order
    totally. *)
Variable dom : list K.
Hypothesis le_lt : forall a b, In a dom -> In b dom -> le a b = negb (lt b a).
Hypothesis lt_asym : forall a b, In a dom -> In b dom ->
  lt a b = true -> lt b a = false.
Hypothesis le_trans : forall a b c, In a dom -> In b dom -> In c dom ->
  le a b = true -> le b c = true -> le a c = true.

Lemma insert_sorted (x : A) (l : list A) :
  In (key x) dom -> Forall (fun y => In (key y) dom) l ->
  StronglySorted (ascends le key) l -> StronglySorted (ascends le key) (insert lt key x l).
Proof.
  intros Hx Hl Hs. induction l as [|y l IH]; cbn [insert].
  - repeat constructor.
  - apply Forall_cons_iff in Hl as [Hy Hl].
    apply StronglySorted_inv in Hs as [Hs Hyl].
    destruct (lt (key y) (key x)) eqn:E.
    + constructor; [now apply IH|].
      apply (Permutation_Forall (Permutation_sym (insert_perm x l))).
      constructor; [|exact Hyl].
      unfold ascends. rewrite le_lt by assumption.
      now rewrite (lt_asym Hy Hx E).
    + assert (Hxy : ascends le key x y).
      { unfold ascends. rewrite le_lt by assumption. now rewrite E. }
      constructor; [now constructor|].
      constructor; [exact Hxy|].
      rewrite Forall_forall in Hyl, Hl |- *. intros z Hz.
      exact (le_trans Hx Hy (Hl z Hz) Hxy (Hyl z Hz)).
Qed.

Lemma sort_ascending_sorted (l : list A) :
  Forall (fun y => In (key y) dom) l ->
  StronglySorted (ascends le key) (sort_ascending lt key l).
Proof.
  induction l as [|x l IH]; intros Hl; cbn [sort_ascending]; [constructor|].
  apply Forall_cons_iff in Hl as [Hx Hl].
  apply insert_sorted; auto.
  apply (Permutation_Forall (Permutation_sym (sort_ascending_perm l))), Hl.
Qed.

(** The keys of the sorted list never increase. *)
Lemma sort_reverse_sorted (l : list A) :
  Forall (fun y => In (key y) dom) l ->
  StronglySorted (fun x y => le (key y) (key x) = true) (sort_reverse lt key l).
Proof.
  intros Hl. unfold sort_reverse.
  apply (strongly_sorted_rev (R := ascends le key)), sort_ascending_sorted.
  apply (Permutation_Forall (Permutation_rev l)), Hl.
Qed.

Lemma insert_stable (s : K) (x : A) (l : list A) :
  In s dom -> In (key x) dom -> Forall (fun y => In (key y) dom) l ->
  filter (ties le key s) (insert lt key x l) = filter (ties le key s) (x :: l).
Proof.
  intros Hs Hx Hl. induction l as [|y l IH]; cbn [insert]; [reflexivity|].
  apply Forall_cons_iff in Hl as [Hy Hl].
  destruct (lt (key y) (key x)) eqn:E; [|reflexivity].
  cbn [filter] in *. rewrite (IH Hl).
  destruct (ties le key s y) eqn:Ty; [|reflexivity].
  assert (Tx : ties le key s x = false).
  { destruct (ties le key s x) eqn:Tx; [|reflexivity]. exfalso.
    unfold ties in Ty, Tx.
    apply andb_true_iff in Ty as [Ty1 Ty2], Tx as [Tx1 Tx2].
    pose proof (le_trans Hx Hs Hy Tx2 Ty1) as Hxy.
    rewrite le_lt in Hxy by assumption. rewrite E in Hxy. discriminate. }
  now rewrite Tx.
Qed.

Lemma sort_ascending_stable (s : K) (l : list A) :
  In s dom -> Forall (fun y => In (key y) dom) l ->
  filter (ties le key s) (sort_ascending lt key l) = filter (ties le key s) l.
Proof.
  intros Hs. induction l as [|x l IH]; intros Hl; [reflexivity|].
  apply Forall_cons_iff in Hl as [Hx Hl]. cbn [sort_ascending].
  rewrite insert_stable; auto.
  - cbn [filter]. now rewrite IH.
  - apply (Permutation_Forall (Permutation_sym (sort_ascending_perm l))), Hl.
Qed.

(** Elements whose keys tie keep the order they had in the input. *)
Lemma sort_reverse_stable (s : K) (l : list A) :
  In s dom -> Forall (fun y => In (key y) dom) l ->
  filter (ties le key s) (sort_reverse lt key l) = filter (ties le key s) l.
Proof.
  intros Hs Hl. unfold sort_reverse.
  rewrite filter_rev, sort_ascending_stable, filter_rev, rev_involutive; auto.
  apply (Permutation_Forall (Permutation_rev l)), Hl.
Qed.

End SortFacts.

(** ** Comprehensions, slices and orders *)

Section ListFacts.
Context {A B : Type}.

Lemma for_each_inv (f : A -> outcome B) (l : list A) (ys : list B) :
  for_each f l = Return ys -> Forall2 (fun x y => f x = Return y) l ys.
Proof.
  revert ys; induction l as [|x l IH]; intros ys H; cbn [for_each] in H.
  - injection H as <-. constructor.
  - destruct (f x) as [y|e] eqn:Ex; cbn [bind] in H; [|discriminate].
    destruct (for_each f l) as [ys'|e]; cbn [bind] in H; [|discriminate].
    injection H as <-. constructor; auto.
Qed.

Lemma for_each_total (f : A -> outcome B) (l : list A) :
  (forall x, In x l -> exists y, f x = Return y) ->
  exists ys, for_each f l = Return ys.
Proof.
  induction l as [|x l IH]; intros H; cbn [for_each]; [now exists []|].
  destruct (H x (or_introl eq_refl)) as [y ->].
  destruct IH as [ys ->]; [intros z Hz; apply H; now right|].
  now exists (y :: ys).
Qed.

Lemma for_each_Forall2 (P : A -> B -> Prop) (f : A -> outcome B) (l : list A) :
  (forall x, In x l -> exists y, f x = Return y /\ P x y) ->
  exists ys, for_each f l = Return ys /\ Forall2 P l ys.
Proof.
  induction l as [|x l IH]; intros H; cbn [for_each].
  - exists []. now split.
  - destruct (H x (or_introl eq_refl)) as [y [-> Hy]].
    destruct IH as [ys [-> Hys]]; [intros z Hz; apply H; now right|].
    exists (y :: ys). split; [reflexivity|now constructor].
Qed.

Lemma for_each_length (f : A -> outcome B) (l : list A) (ys : list B) :
  for_each f l = Return ys -> length ys = length l.
Proof.
  intros H. symmetry. exact (Forall2_length (for_each_inv _ _ H)).
Qed.

Lemma Forall2_In_l (Q : A -> B -> Prop) (l : list A) (ys : list B) (x : A) :
  Forall2 Q l ys -> In x l -> exists y, In y ys /\ Q x y.
Proof.
  induction 1 as [|a b l ys Hab _ IH]; intros Hx; [destruct Hx|].
  destruct Hx as [<-|Hx].
  - exists b. split; [now left|exact Hab].
  - destruct (IH Hx) as [y [Hy HQ]]. exists y. split; [now right|exact HQ].
Qed.

Lemma Forall2_In_r (Q : A -> B -> Prop) (l : list A) (ys : list B) (y : B) :
  Forall2 Q l ys -> In y ys -> exists x, In x l /\ Q x y.
Proof.
  induction 1 as [|a b l ys Hab _ IH]; intros Hy; [destruct Hy|].
  destruct Hy as [<-|Hy].
  - exists a. split; [now left|exact Hab].
  - destruct (IH Hy) as [x [Hx HQ]]. exists x. split; [now right|exact HQ].
Qed.

Lemma strongly_sorted_Forall2 (R : A -> A -> Prop) (S : B -> B -> Prop)
  (Q : A -> B -> Prop) (l : list A) (ys : list B) :
  (forall x x' y y', Q x y -> Q x' y' -> R x x' -> S y y') ->
  Forall2 Q l ys -> StronglySorted R l -> StronglySorted S ys.
Proof.
  intros HQ H. induction H as [|a b l ys Hab Hl IH]; intros Hs; [constructor|].
  apply StronglySorted_inv in Hs as [Hs Ha].
  constructor; [now apply IH|].
  apply Forall_forall. intros y Hy.
  destruct (Forall2_In_r y Hl Hy) as [x [Hx Hxy]].
  rewrite Forall_forall in Ha. exact (HQ _ _ _ _ Hab Hxy (Ha x Hx)).
Qed.

Lemma strongly_sorted_skipn (R : A -> A -> Prop) (n : nat) (l : list A) :
  StronglySorted R l -> StronglySorted R (skipn n l).
Proof.
  revert l; induction n as [|n IH]; intros l H; [exact H|].
  destruct l as [|a l]; [constructor|].
  apply StronglySorted_inv in H as [H _]. cbn [skipn]. now apply IH.
Qed.

Lemma in_skipn (n : nat) (l : list A) (x : A) : In x (skipn n l) -> In x l.
Proof.
  intros H. rewrite <- (firstn_skipn n l). apply in_or_app. now right.
Qed.

Lemma pairwiseb_sorted (R : A -> A -> bool) (l : list A) :
  pairwiseb R l = true -> StronglySorted (fun x y => R x y = true) l.
Proof.
  induction l as [|a l IH]; intros H; [constructor|].
  cbn [pairwiseb] in H. apply andb_true_iff in H as [Ha H].
  constructor; [now apply IH|].
  apply Forall_forall. now apply forallb_forall.
Qed.

(** [l[-k:]] for a positive [k] keeps the last [min k (len l)] items. *)
Lemma slice_from_last (k : Z) (l : list A) :
  (0 < k)%Z ->
  slice_from (- k) l = skipn (length l - Z.to_nat k) l.
Proof.
  intros Hk. unfold slice_from.
  destruct (Z.ltb_spec (- k) 0) as [_|]; [|lia].
  f_equal. lia.
Qed.

Lemma slice_from_last_length (k : Z) (l : list A) :
  (0 < k)%Z ->
  length (slice_from (- k) l) = Nat.min (Z.to_nat k) (length l).
Proof.
  intros Hk. rewrite slice_from_last by exact Hk. rewrite length_skipn. lia.
Qed.

End ListFacts.

Lemma nodupb_NoDup (l : list nat) : nodupb l = true -> NoDup l.
Proof.
  induction l as [|a l IH]; intros H; [constructor|].
  cbn [nodupb] in H. apply andb_true_iff in H as [Ha H].
  constructor; [|now apply IH].
  intros Hin. apply negb_true_iff in Ha.
  assert (existsb (Nat.eqb a) l = true); [|congruence].
  apply existsb_exists. exists a. split; [exact Hin|apply Nat.eqb_refl].
Qed.

Section OrderFacts.
Context {F : Type} {NP : Numpy F}.
Variable ks : list F.
Hypothesis Hks : ordered_on ks = true.

Lemma ordered_on_ordered3 (a b c : F) :
  In a ks -> In b ks -> In c ks -> ordered3 a b c = true.
Proof.
  intros Ha Hb Hc. unfold ordered_on in Hks.
  rewrite forallb_forall in Hks. specialize (Hks a Ha).
  rewrite forallb_forall in Hks. specialize (Hks b Hb).
  rewrite forallb_forall in Hks. exact (Hks c Hc).
Qed.

Lemma ordered_le_lt (a b : F) :
  In a ks -> In b ks -> f_le a b = negb (f_lt b a).
Proof.
  intros Ha Hb. pose proof (ordered_on_ordered3 a b a Ha Hb Ha) as H.
  unfold ordered3 in H. apply andb_true_iff in H as [H _].
  apply andb_true_iff in H as [H _]. now apply eqb_prop in H.
Qed.

Lemma ordered_lt_asym (a b : F) :
  In a ks -> In b ks -> f_lt a b = true -> f_lt b a = false.
Proof.
  intros Ha Hb E. pose proof (ordered_on_ordered3 a b a Ha Hb Ha) as H.
  unfold ordered3 in H. apply andb_true_iff in H as [H _].
  apply andb_true_iff in H as [_ H]. rewrite E in H. cbn in H.
  now apply negb_true_iff in H.
Qed.

Lemma ordered_le_trans (a b c : F) :
  In a ks -> In b ks -> In c ks ->
  f_le a b = true -> f_le b c = true -> f_le a c = true.
Proof.
  intros Ha Hb Hc E1 E2. pose proof (ordered_on_ordered3 a b c Ha Hb Hc) as H.
  unfold ordered3 in H. apply andb_true_iff in H as [_ H].
  now rewrite E1, E2 in H.
Qed.

End OrderFacts.

(** ** [detect] *)

Section Detect.
Context {F : Type} {NP : Numpy F} {CO : Collaborators F}.
Variable conf : DeepFaceConfs F.
Variable self : FaceRecognizerVGG F.

Lemma detect_db h npimg rois faces items probs feats :
  db self = Some items ->
  extract_features self h npimg rois faces = Return (probs, feats) ->
  detect conf self h npimg rois faces
  = Return {| output := probs; feature := feats;
              name := map (db_ranking items) feats |}.
Proof.
  intros Hdb Hex. unfold detect. rewrite Hex, Hdb. reflexivity.
Qed.

Lemma detect_inv h npimg rois faces res :
  detect conf self h npimg rois faces = Return res ->
  extract_features self h npimg rois faces = Return (output res, feature res)
  /\ match db self with
     | None => for_each (class_candidates conf self) (output res)
               = Return (name res)
     | Some items => name res = map (db_ranking items) (feature res)
     end.
Proof.
  unfold detect. intros H.
  destruct (extract_features self h npimg rois faces) as [[probs feats]|e];
    cbn [bind] in H; [|discriminate].
  destruct (db self) as [items|].
  - cbn [bind] in H. injection H as <-. now split.
  - destruct (for_each (class_candidates conf self) probs) as [names|e] eqn:E;
      cbn [bind] in H; [|discriminate].
    injection H as <-. now split.
Qed.

Lemma db_scores_length items feat :
  length (db_scores items feat) = length items.
Proof. apply length_map. Qed.

Lemma db_ranking_length items feat :
  length (db_ranking items feat) = length items.
Proof.
  unfold db_ranking. now rewrite sort_reverse_length, db_scores_length.
Qed.

Lemma class_candidate_inv prop idx c :
  (cls <- getitem (class_names self) idx ;;
   p <- getitem prop idx ;;
   Return (cls, p)) = Return c ->
  class_candidate self prop idx c.
Proof.
  unfold getitem, class_candidate.
  destruct (nth_error (class_names self) idx) as [cls|]; cbn [bind];
    [|discriminate].
  destruct (nth_error prop idx) as [p|]; cbn [bind]; [|discriminate].
  intros H. injection H as <-. now split.
Qed.

Lemma class_candidates_inv prop cands :
  class_candidates conf self prop = Return cands ->
  Forall2 (class_candidate self prop)
          (reversed (slice_from (- topk conf) (np_argsort prop))) cands.
Proof.
  intros H. apply for_each_inv in H.
  eapply Forall2_impl; [|exact H].
  intros idx c. apply class_candidate_inv.
Qed.

(** Whatever [topk] is, the candidates of a row come out with scores that
    never increase, as long as [argsort] kept its contract on the row. *)
Lemma class_candidates_descending prop cands :
  argsort_ok prop = true ->
  class_candidates conf self prop = Return cands ->
  descending cands.
Proof.
  intros Hok H. apply class_candidates_inv in H.
  unfold argsort_ok in Hok. apply andb_true_iff in Hok as [_ Hpw].
  apply pairwiseb_sorted in Hpw.
  unfold descending.
  eapply strongly_sorted_Forall2; [|exact H|].
  2:{ unfold reversed, slice_from.
      apply strongly_sorted_rev, strongly_sorted_skipn, Hpw. }
  intros i j c d [_ Hc] [_ Hd] Hle. cbn beta in Hle.
  unfold le_at in Hle. rewrite Hc, Hd in Hle. exact Hle.
Qed.

Lemma class_candidates_topk prop :
  (0 < topk conf)%Z ->
  length prop = length (class_names self) ->
  argsort_ok prop = true ->
  exists cands,
    class_candidates conf self prop = Return cands
    /\ length cands
       = Nat.min (Z.to_nat (topk conf)) (length (class_names self))
    /\ ((Z.of_nat (length (class_names self)) <= topk conf)%Z ->
        forall idx cls q,
          nth_error (class_names self) idx = Some cls ->
          nth_error prop idx = Some q -> In (cls, q) cands).
Proof.
  intros Hk Hlen Hok. pose proof Hok as Hok'.
  unfold argsort_ok in Hok'.
  apply andb_true_iff in Hok' as [Hok' _].
  apply andb_true_iff in Hok' as [Hok' Hnd].
  apply andb_true_iff in Hok' as [Hlr Hlt].
  apply Nat.eqb_eq in Hlr. apply nodupb_NoDup in Hnd.
  rewrite forallb_forall in Hlt.
  set (idxs := reversed (slice_from (- topk conf) (np_argsort prop))).
  assert (Hin : forall idx, In idx idxs -> idx < length prop).
  { intros idx Hidx. apply Nat.ltb_lt, Hlt.
    unfold idxs, reversed, slice_from in Hidx.
    apply in_rev in Hidx. eapply in_skipn; eauto. }
  destruct (@for_each_total _ _
              (fun idx => cls <- getitem (class_names self) idx ;;
                          p <- getitem prop idx ;; Return (cls, p)) idxs)
    as [cands Hc].
  { intros idx Hidx. specialize (Hin idx Hidx). unfold getitem.
    destruct (nth_error (class_names self) idx) as [cls|] eqn:E1.
    2:{ apply nth_error_None in E1. lia. }
    destruct (nth_error prop idx) as [p|] eqn:E2.
    2:{ apply nth_error_None in E2. lia. }
    now exists (cls, p). }
  exists cands. split; [exact Hc|]. split.
  - rewrite (for_each_length _ _ Hc). unfold idxs, reversed.
    rewrite length_rev, slice_from_last_length by exact Hk. lia.
  - intros Hall idx cls q Hcls Hq.
    assert (Hidx : In idx idxs).
    { unfold idxs, reversed. apply -> in_rev.
      rewrite slice_from_last by exact Hk.
      replace (length (np_argsort prop) - Z.to_nat (topk conf)) with 0 by lia.
      cbn [skipn].
      assert (Hs : In idx (seq 0 (length prop))).
      { apply in_seq. split; [lia|]. cbn. apply nth_error_Some. congruence. }
      clear Hcls Hq. revert idx Hs.
      apply NoDup_length_incl; [exact Hnd|rewrite length_seq; lia|].
      intros i Hi. apply in_seq. specialize (Hlt i Hi).
      apply Nat.ltb_lt in Hlt. lia. }
    destruct (Forall2_In_l idx (for_each_inv _ _ Hc) Hidx) as [c [Hc1 Hc2]].
    apply class_candidate_inv in Hc2 as [H1 H2].
    rewrite Hcls in H1. rewrite Hq in H2.
    destruct c as [c1 c2]. cbn in H1, H2. congruence.
Qed.

(** C6 -- With no database loaded and [topk] >= 1 (the configuration's
    type), [detect] returns for every query exactly min(topk, numClasses)
    candidates, each a class name paired with its probability in the
    query's row, with probabilities that never increase; when [topk] is at
    least the number of classes, every class is among them.  The rows are
    taken as the softmax node gives them (one entry per class) and [argsort]
    as keeping its contract on them. *)
Theorem detect_fallback_topk h npimg rois faces :
  db self = None ->
  (0 < topk conf)%Z ->
  0 < batch_size self ->
  input_regions h npimg rois faces <> [] ->
  let probs :=
    map net_prob (get_new_rois self (input_regions h npimg rois faces)) in
  forallb (fun prop => (length prop =? length (class_names self))
                       && argsort_ok prop) probs = true ->
  exists res,
    detect conf self h npimg rois faces = Return res
    /\ output res = probs
    /\ Forall2 (topk_candidates conf self) probs (name res).
Proof.
  intros Hdb Hk HB Hne probs Hrows.
  pose proof (extract_features_regions self h npimg rois faces HB Hne) as Hex.
  fold probs in Hex. rewrite forallb_forall in Hrows.
  destruct (@for_each_Forall2 _ _ (topk_candidates conf self)
              (class_candidates conf self) probs) as [names [Hnames HF]].
  { intros prop Hprop. specialize (Hrows prop Hprop).
    apply andb_true_iff in Hrows as [Hlen Hok]. apply Nat.eqb_eq in Hlen.
    destruct (class_candidates_topk prop Hk Hlen Hok) as [cands [Hc [Hl Hall]]].
    exists cands. split; [exact Hc|].
    split; [exact Hl|]. split; [exact (class_candidates_descending prop Hok Hc)|].
    split; [|exact Hall].
    intros c Hin.
    destruct (Forall2_In_r c (class_candidates_inv prop Hc) Hin)
      as [idx [_ Hidx]].
    now exists idx. }
  exists {| output := probs;
            feature := map embed (get_new_rois self
                                    (input_regions h npimg rois faces));
            name := names |}.
  split; [|split; [reflexivity|exact HF]].
  unfold detect. rewrite Hex, Hdb. cbn [bind]. rewrite Hnames. reflexivity.
Qed.



End Detect.

(** ** [tag_faces] *)

Section Patches.
Context {G F : Type}.

Lemma or_else_assoc {A} (a b c : option A) :
  or_else a (or_else b c) = or_else (or_else a b) c.
Proof. now destruct a. Qed.

Lemma or_else_idem {A} (a c : option A) : or_else a (or_else a c) = or_else a c.
Proof. now destruct a. Qed.

Lemma apply_patch_then (p q : patch F) (x : Face G F) :
  apply_patch q (apply_patch p x) = apply_patch (patch_then p q) x.
Proof.
  unfold apply_patch, patch_then. cbn. now rewrite !or_else_assoc.
Qed.

Lemma apply_patch_idem (p : patch F) (x : Face G F) :
  apply_patch p (apply_patch p x) = apply_patch p x.
Proof.
  unfold apply_patch. cbn. now rewrite !or_else_idem.
Qed.

Lemma apply_no_patch (x : Face G F) : apply_patch no_patch x = x.
Proof. now destruct x. Qed.

Lemma update_same (h : store G F) (a : nat) (g : Face G F -> Face G F) :
  update h a g a = g (h a).
Proof. unfold update. now rewrite Nat.eqb_refl. Qed.

Lemma update_other (h : store G F) (a b : nat) (g : Face G F -> Face G F) :
  b <> a -> update h a g b = h b.
Proof.
  intros Hb. unfold update. apply Nat.eqb_neq in Hb. now rewrite Hb.
Qed.

End Patches.

Section Tagging.
Context {F : Type} {NP : Numpy F} {CO : Collaborators F}.
Variable conf : DeepFaceConfs F.
Variable result : Result F.

(** The loop body, case by case. *)
Lemma tag_face_cases (i a : nat) (h : store Geometry F) :
  match nth_error (feature result) i with
  | None => tag_face conf result i a h = (h, Raise IndexError)
  | Some feat =>
      match nth_error (name result) i with
      | Some ((nm, score) :: _) =>
          tag_face conf result i a h
          = (if f_lt score (score_th conf)
             then update h a (set_face_feature feat)
             else update (update (update h a (set_face_feature feat))
                                 a (set_face_name nm))
                         a (set_face_score score),
             Return tt)
      | _ =>
          tag_face conf result i a h
          = (update h a (set_face_feature feat), Raise IndexError)
      end
  end.
Proof.
  unfold tag_face, getitem.
  destruct (nth_error (feature result) i) as [feat|]; [|reflexivity].
  destruct (nth_error (name result) i) as [[|[nm score] cands]|];
    cbn [bind nth_error]; try reflexivity.
  now destruct (f_lt score (score_th conf)).
Qed.

(** The loop body assigns attributes of the face at [a] and of no other;
    what it assigns and whether it raises do not depend on the store. *)
Lemma tag_face_patch (i a : nat) :
  exists (p : patch F) (o : outcome unit),
  forall h : store Geometry F,
    snd (tag_face conf result i a h) = o
    /\ forall b, fst (tag_face conf result i a h) b
                 = if b =? a then apply_patch p (h b) else h b.
Proof.
  pose proof (tag_face_cases i a) as H.
  destruct (nth_error (feature result) i) as [feat|].
  2:{ exists no_patch, (Raise IndexError). intros h. rewrite H. cbn [fst snd].
      split; [reflexivity|]. intros b. rewrite apply_no_patch.
      now destruct (b =? a). }
  assert (Hraise : forall h : store Geometry F,
             tag_face conf result i a h
             = (update h a (set_face_feature feat), Raise IndexError) ->
             snd (tag_face conf result i a h) = Raise IndexError
             /\ forall b, fst (tag_face conf result i a h) b
                = if b =? a
                  then apply_patch {| p_feature := Some feat; p_name := None;
                                      p_score := None |} (h b)
                  else h b).
  { intros h E. rewrite E. cbn [fst snd]. split; [reflexivity|].
    intros b. unfold update. now destruct (b =? a). }
  destruct (nth_error (name result) i) as [[|[nm score] cands]|].
  - eexists _, _. intros h. exact (Hraise h (H h)).
  - destruct (f_lt score (score_th conf)).
    + exists {| p_feature := Some feat; p_name := None; p_score := None |},
             (Return tt).
      intros h. rewrite H. cbn [fst snd]. split; [reflexivity|].
      intros b. unfold update. now destruct (b =? a).
    + exists {| p_feature := Some feat; p_name := Some nm;
                p_score := Some score |}, (Return tt).
      intros h. rewrite H. cbn [fst snd]. split; [reflexivity|].
      intros b. unfold update. now destruct (b =? a).
  - eexists _, _. intros h. exact (Hraise h (H h)).
Qed.

Lemma tag_loop_patch (faces : list nat) :
  forall i, exists (P : nat -> patch F) (o : outcome unit),
  forall h : store Geometry F,
    snd (tag_loop conf result i faces h) = o
    /\ forall b, fst (tag_loop conf result i faces h) b
                 = apply_patch (P b) (h b).
Proof.
  induction faces as [|a rest IH]; intros i.
  - exists (fun _ => no_patch), (Return tt). intros h. cbn.
    split; [reflexivity|]. intros b. now rewrite apply_no_patch.
  - destruct (tag_face_patch i a) as [p [o Hp]].
    destruct (IH (S i)) as [P' [o' HP']].
    destruct o as [[]|e].
    + exists (fun b => if b =? a then patch_then p (P' b) else P' b), o'.
      intros h. cbn [tag_loop]. destruct (Hp h) as [Ho Hh].
      destruct (tag_face conf result i a h) as [h1 o1]. cbn [fst snd] in *.
      subst o1. destruct (HP' h1) as [Ho' Hh']. split; [exact Ho'|].
      intros b. rewrite Hh', Hh.
      destruct (b =? a); [apply apply_patch_then|reflexivity].
    + exists (fun b => if b =? a then p else no_patch), (Raise e).
      intros h. cbn [tag_loop]. destruct (Hp h) as [Ho Hh].
      destruct (tag_face conf result i a h) as [h1 o1]. cbn [fst snd] in *.
      subst o1. cbn [fst snd]. split; [reflexivity|].
      intros b. rewrite Hh.
      destruct (b =? a); [reflexivity|now rewrite apply_no_patch].
Qed.

Lemma tag_faces_loop (h : store Geometry F) (faces : list nat) :
  fst (tag_faces conf h faces result) = fst (tag_loop conf result 0 faces h)
  /\ snd (tag_faces conf h faces result)
     = (_ <- snd (tag_loop conf result 0 faces h) ;; Return faces).
Proof.
  unfold tag_faces. now destruct (tag_loop conf result 0 faces h).
Qed.

(** C9 -- [tag_faces] is idempotent: called a second time with the same
    faces and the same result, on the store the first call left, it leaves
    every face object -- feature, name and score -- exactly as the first
    call did, and ends the same way; nothing accumulates.  This holds also
    when one face object occurs several times among the faces. *)
Theorem tag_faces_idempotent (h : store Geometry F) (faces : list nat) :
  let first := tag_faces conf h faces result in
  let second := tag_faces conf (fst first) faces result in
  snd second = snd first /\ forall a, fst second a = fst first a.
Proof.
  intros first second. subst second first.
  destruct (tag_loop_patch faces 0) as [P [o HP]].
  destruct (tag_faces_loop h faces) as [E1 E1'].
  destruct (tag_faces_loop (fst (tag_faces conf h faces result)) faces)
    as [E2 E2'].
  rewrite E2', E1', E2, E1. clear E1 E1' E2 E2'.
  destruct (HP h) as [Ho Hh].
  destruct (HP (fst (tag_loop conf result 0 faces h))) as [Ho2 Hh2].
  split; [now rewrite Ho2, Ho|].
  intros a. rewrite Hh2, Hh. apply apply_patch_idem.
Qed.

Lemma tag_loop_app (l1 l2 : list nat) : forall i (h : store Geometry F),
  tag_loop conf result i (l1 ++ l2) h
  = match tag_loop conf result i l1 h with
    | (h1, Return _) => tag_loop conf result (i + length l1) l2 h1
    | (h1, Raise e) => (h1, Raise e)
    end.
Proof.
  induction l1 as [|a l1 IH]; intros i h; cbn [app tag_loop length].
  - now rewrite Nat.add_0_r.
  - destruct (tag_face conf result i a h) as [h1 [[]|e]]; [|reflexivity].
    rewrite IH. now replace (S i + length l1) with (i + S (length l1)) by lia.
Qed.

Lemma firstn_snoc {A} (l : list A) : forall i a,
  nth_error l i = Some a -> firstn (S i) l = firstn i l ++ [a].
Proof.
  induction l as [|x l IH]; intros [|i] a H; cbn in H; try discriminate.
  - now injection H as ->.
  - cbn [firstn app]. f_equal. now apply IH.
Qed.

(** One iteration of the loop takes the store at [i] to the store at
    [S i]. *)
Lemma store_at_step (faces : list nat) (h : store Geometry F) (i a : nat) :
  nth_error faces i = Some a ->
  reaches conf result faces h i ->
  store_at conf result faces h (S i)
  = fst (tag_face conf result i a (store_at conf result faces h i)).
Proof.
  unfold reaches, store_at. intros Ha Hr.
  rewrite (@firstn_snoc _ faces i a Ha), tag_loop_app.
  destruct (tag_loop conf result 0 (firstn i faces) h) as [h1 o].
  cbn [fst snd] in *. subst o.
  assert (Hi : i < length faces) by (apply nth_error_Some; congruence).
  rewrite firstn_length_le by lia. cbn [Nat.add tag_loop].
  now destruct (tag_face conf result i a h1) as [h2 [[]|e]].
Qed.

Lemma tag_loop_untouched (faces : list nat) :
  forall i (h : store Geometry F) b,
  ~ In b faces -> fst (tag_loop conf result i faces h) b = h b.
Proof.
  induction faces as [|a rest IH]; intros i h b Hb; [reflexivity|].
  cbn [tag_loop]. destruct (tag_face_patch i a) as [p [o Hp]].
  destruct (Hp h) as [_ Hh]. specialize (Hh b).
  assert (Hba : (b =? a) = false).
  { apply Nat.eqb_neq. intros ->. apply Hb. now left. }
  rewrite Hba in Hh.
  destruct (tag_face conf result i a h) as [h1 [[]|e]]; cbn [fst] in *.
  - rewrite IH; [exact Hh|]. intros Hin. apply Hb. now right.
  - exact Hh.
Qed.

(** A face object that does not occur after index [i] keeps, to the end of
    [tag_faces], the state it has after iteration [i]. *)
Lemma final_store (faces : list nat) (h : store Geometry F) (i b : nat) :
  ~ In b (skipn (S i) faces) ->
  fst (tag_faces conf h faces result) b
  = store_at conf result faces h (S i) b.
Proof.
  intros Hb. destruct (tag_faces_loop h faces) as [-> _]. unfold store_at.
  rewrite <- (firstn_skipn (S i) faces) at 1. rewrite tag_loop_app.
  destruct (tag_loop conf result 0 (firstn (S i) faces) h) as [h1 [[]|e]];
    cbn [fst]; [|reflexivity].
  now apply tag_loop_untouched.
Qed.

(** C8 -- For every face at an index [i] the loop of [tag_faces] arrives
    at, the feature attribute of the face is set to [result['feature'][i]]
    whatever its candidates are -- a top score below the threshold, or no
    candidate at all: it holds that value when the iteration ends, and to
    the end of [tag_faces] unless the same face object occurs again. *)
Theorem tag_faces_sets_feature (faces : list nat) (h : store Geometry F)
  (i a : nat) (feat : list F) :
  nth_error faces i = Some a ->
  reaches conf result faces h i ->
  nth_error (feature result) i = Some feat ->
  face_feature (store_at conf result faces h (S i) a) = Some feat
  /\ (~ In a (skipn (S i) faces) ->
      face_feature (fst (tag_faces conf h faces result) a) = Some feat).
Proof.
  intros Ha Hr Hfeat.
  assert (E : face_feature (store_at conf result faces h (S i) a) = Some feat).
  { rewrite (@store_at_step faces h i a Ha Hr).
    pose proof (tag_face_cases i a (store_at conf result faces h i)) as H.
    rewrite Hfeat in H.
    destruct (nth_error (name result) i) as [[|[nm score] cands]|];
      rewrite H; cbn [fst]; try (now rewrite update_same).
    destruct (f_lt score (score_th conf)); now rewrite !update_same. }
  split; [exact E|]. intros Hlast. now rewrite (@final_store faces h i a Hlast).
Qed.

(** C3 (as amended) -- For every face at an index [i] the loop of
    [tag_faces] arrives at, with a feature and a top candidate
    [(nm, score)]: when [score < score_th] is false, the name and score
    attributes are set to [nm] and [score]; when it is true, they are left
    as they were.  Whenever [score >= score_th] is the negation of
    [score < score_th] (neither is a NaN), they are set if and only if
    [score >= score_th].  The face keeps that state to the end of
    [tag_faces] unless the same face object occurs again. *)
Theorem tag_faces_threshold (faces : list nat) (h : store Geometry F)
  (i a : nat) (feat : list F) (nm : string) (score : F)
  (cands : list (string * F)) :
  nth_error faces i = Some a ->
  reaches conf result faces h i ->
  nth_error (feature result) i = Some feat ->
  nth_error (name result) i = Some ((nm, score) :: cands) ->
  let before := store_at conf result faces h i a in
  let after := store_at conf result faces h (S i) a in
  let set := face_name after = Some nm /\ face_score after = Some score in
  let untouched := face_name after = face_name before
                   /\ face_score after = face_score before in
  (if f_lt score (score_th conf) then untouched else set)
  /\ (f_ge score (score_th conf) = negb (f_lt score (score_th conf)) ->
      if f_ge score (score_th conf) then set else untouched)
  /\ (~ In a (skipn (S i) faces) ->
      fst (tag_faces conf h faces result) a = after).
Proof.
  intros Ha Hr Hfeat Hname before after set untouched.
  assert (E : if f_lt score (score_th conf) then untouched else set).
  { subst set untouched after before.
    rewrite (@store_at_step faces h i a Ha Hr).
    pose proof (tag_face_cases i a (store_at conf result faces h i)) as H.
    rewrite Hfeat, Hname in H. rewrite H. cbn [fst].
    destruct (f_lt score (score_th conf)); rewrite !update_same; now split. }
  split; [exact E|]. split; [|exact (@final_store faces h i a)].
  intros ->. now destruct (f_lt score (score_th conf)).
Qed.

Lemma all_ranked_tail (i a : nat) (rest : list nat) :
  all_ranked result i (a :: rest) -> all_ranked result (S i) rest.
Proof.
  intros H j Hj. specialize (H (S j)). cbn [length] in H.
  replace (i + S j) with (S i + j) in H by lia. apply H. lia.
Qed.

Lemma tag_loop_returns (faces : list nat) : forall i (h : store Geometry F),
  all_ranked result i faces -> snd (tag_loop conf result i faces h) = Return tt.
Proof.
  induction faces as [|a rest IH]; intros i h Hok; [reflexivity|].
  cbn [tag_loop]. pose proof (tag_face_cases i a h) as H.
  destruct (Hok 0) as [feat [[nm score] [cands [Hf Hn]]]]; [cbn; lia|].
  rewrite Nat.add_0_r in Hf, Hn. rewrite Hf, Hn in H. rewrite H.
  apply IH. exact (@all_ranked_tail i a rest Hok).
Qed.

Lemma tag_loop_below (faces : list nat) (a : nat) :
  forall i (h : store Geometry F),
  all_ranked result i faces ->
  (forall j nm score cands,
     nth_error faces j = Some a ->
     nth_error (name result) (i + j) = Some ((nm, score) :: cands) ->
     f_lt score (score_th conf) = true) ->
  face_name (fst (tag_loop conf result i faces h) a) = face_name (h a)
  /\ face_score (fst (tag_loop conf result i faces h) a) = face_score (h a).
Proof.
  induction faces as [|b rest IH]; intros i h Hok Hlow; [now split|].
  cbn [tag_loop]. pose proof (tag_face_cases i b h) as H.
  destruct (Hok 0) as [feat [[nm score] [cands [Hf Hn]]]]; [cbn; lia|].
  rewrite Nat.add_0_r in Hf, Hn. rewrite Hf, Hn in H. rewrite H.
  match goal with
  | |- context [tag_loop conf result (S i) rest ?hx] => set (h1 := hx)
  end.
  assert (E : face_name (h1 a) = face_name (h a)
              /\ face_score (h1 a) = face_score (h a)).
  { subst h1. destruct (Nat.eq_dec b a) as [->|Hba].
    - rewrite (Hlow 0 nm score cands eq_refl).
      2:{ now rewrite Nat.add_0_r. }
      rewrite update_same. now split.
    - destruct (f_lt score (score_th conf));
        rewrite !update_other by congruence; now split. }
  destruct (IH (S i) h1 (@all_ranked_tail i b rest Hok)) as [E1 E2].
  { intros j nm' score' cands' Hj Hn'. apply (Hlow (S j) nm' score' cands').
    - exact Hj.
    - now replace (i + S j) with (S i + j) by lia. }
  destruct E as [E3 E4]. split; congruence.
Qed.

(** C5 (as amended) -- When every face has a feature and a non-empty
    candidate list, [tag_faces] raises nothing and returns the faces: a
    face whose top scores are all below the threshold is not an error, and
    its name and score attributes stay as they were (unset, if they were
    unset). *)
Theorem tag_faces_no_match_no_error (h : store Geometry F) (faces : list nat) :
  all_ranked result 0 faces ->
  snd (tag_faces conf h faces result) = Return faces
  /\ forall a,
       (forall j nm score cands,
          nth_error faces j = Some a ->
          nth_error (name result) j = Some ((nm, score) :: cands) ->
          f_lt score (score_th conf) = true) ->
       face_name (fst (tag_faces conf h faces result) a) = face_name (h a)
       /\ face_score (fst (tag_faces conf h faces result) a)
          = face_score (h a).
Proof.
  intros Hok. destruct (tag_faces_loop h faces) as [-> ->].
  rewrite (@tag_loop_returns faces 0 h Hok). split; [reflexivity|].
  intros a Hlow. apply tag_loop_below; [exact Hok|exact Hlow].
Qed.

End Tagging.

(** ** Zero vectors in binary64 arithmetic *)

Section ZeroNorm.
Import Float64.

Lemma nan_mul_l (x : float) : PrimFloat.mul nan x = nan.
Proof. apply Prim2SF_inj. rewrite mul_spec. reflexivity. Qed.

Lemma nan_mul_r (x : float) : PrimFloat.mul x nan = nan.
Proof.
  apply Prim2SF_inj. rewrite mul_spec.
  change (Prim2SF nan) with S754_nan. now destruct (Prim2SF x).
Qed.

Lemma nan_add_l (x : float) : PrimFloat.add nan x = nan.
Proof. apply Prim2SF_inj. rewrite add_spec. reflexivity. Qed.

Lemma nan_add_r (x : float) : PrimFloat.add x nan = nan.
Proof.
  apply Prim2SF_inj. rewrite add_spec.
  change (Prim2SF nan) with S754_nan. now destruct (Prim2SF x) as [| [] | |].
Qed.

Lemma eqb_zero (x : float) :
  PrimFloat.eqb x 0%float = true -> x = 0%float \/ x = (-0)%float.
Proof.
  intros H. rewrite eqb_spec in H.
  change (Prim2SF 0%float) with (S754_zero false) in H.
  destruct (Prim2SF x) as [s|s| |s m e] eqn:E; cbn in H;
    try (destruct s; discriminate); try discriminate.
  destruct s; [right|left]; apply Prim2SF_inj; now rewrite E.
Qed.

Lemma sum_squares_zero (v : list float) :
  forallb (fun x => PrimFloat.eqb x 0%float) v = true ->
  sum_squares v = 0%float.
Proof.
  unfold sum_squares. induction v as [|x v IH]; intros H; [reflexivity|].
  cbn [forallb] in H. apply andb_true_iff in H as [Hx H].
  cbn [fold_left]. destruct (@eqb_zero x Hx) as [-> | ->]; exact (IH H).
Qed.

(** A zero vector has norm zero, ... *)
Lemma zero_vector_norm (v : list float) : zero_vector v -> norm v = 0%float.
Proof.
  intros [_ H]. unfold norm. now rewrite sum_squares_zero.
Qed.

Lemma zero_over_zero (v : list float) :
  forallb (fun x => PrimFloat.eqb x 0%float) v = true ->
  map (fun x => PrimFloat.div x 0%float) v = repeat nan (length v).
Proof.
  induction v as [|x v IH]; intros H; [reflexivity|].
  cbn [forallb] in H. apply andb_true_iff in H as [Hx H].
  cbn [map length repeat]. rewrite (IH H).
  now destruct (@eqb_zero x Hx) as [-> | ->].
Qed.

(** ... and divided by its norm it is a non-empty vector of NaNs. *)
Lemma zero_vector_normalized (v : list float) :
  zero_vector v ->
  exists n, np_vdiv v (np_norm v) = repeat nan (S n).
Proof.
  intros Hz. cbn [np_norm float64]. unfold np_vdiv. cbn [f_div float64].
  rewrite (@zero_vector_norm v Hz). destruct Hz as [Hne H].
  rewrite (@zero_over_zero v H).
  destruct v as [|x v]; [congruence|]. now exists (length v).
Qed.

Lemma fold_dot_nan (l : list (float * float)) :
  fold_left (fun acc xy => PrimFloat.add acc (PrimFloat.mul (fst xy) (snd xy)))
            l nan = nan.
Proof.
  induction l as [|xy l IH]; [reflexivity|].
  cbn [fold_left]. now rewrite nan_add_l.
Qed.

Lemma dot_nan_l (n : nat) (w : list float) :
  w <> [] -> dot (repeat nan (S n)) w = nan.
Proof.
  intros Hw. destruct w as [|y w]; [congruence|].
  unfold dot. cbn [repeat combine fold_left fst snd].
  rewrite nan_mul_l, nan_add_r. apply fold_dot_nan.
Qed.

Lemma dot_nan_r (n : nat) (u : list float) :
  u <> [] -> dot u (repeat nan (S n)) = nan.
Proof.
  intros Hu. destruct u as [|x u]; [congruence|].
  unfold dot. cbn [repeat combine fold_left fst snd].
  rewrite nan_mul_r, nan_add_r. apply fold_dot_nan.
Qed.

Lemma np_vdiv_nonempty (v : list float) (s : float) :
  v <> [] -> np_vdiv v s <> [].
Proof. destruct v; [congruence|discriminate]. Qed.

(** The similarity of line 154 is NaN as soon as one of the two vectors is
    a zero vector. *)
Lemma similarity_zero_vector (feat db_feature : list float) :
  (zero_vector feat /\ db_feature <> [])
  \/ (feat <> [] /\ zero_vector db_feature) ->
  similarity feat db_feature = nan.
Proof.
  unfold similarity. intros [[Hz Hne]|[Hne Hz]];
    destruct (@zero_vector_normalized _ Hz) as [n ->]; cbn [np_dot float64].
  - apply dot_nan_l. now apply np_vdiv_nonempty.
  - apply dot_nan_r. now apply np_vdiv_nonempty.
Qed.

(** C1 (as amended) -- On the database path [detect] has no zero-norm
    guard and signals no error for any comparison: for every query embedding
    it returns one score per database entry, and where the query or the
    entry is a zero vector (its norm is zero) the division by the norm is
    carried out and the candidate list holds that entry with the score
    NaN. *)
Theorem detect_zero_norm_unguarded {CO : Collaborators float}
  (conf : DeepFaceConfs float) (self : FaceRecognizerVGG float)
  (h : store Geometry float) (npimg : Image)
  (rois : option (list Region)) (faces : option (list nat))
  (items : list (string * list float)) (probs feats : list (list float)) :
  db self = Some items ->
  extract_features self h npimg rois faces = Return (probs, feats) ->
  (forall v, zero_vector v -> np_norm v = 0%float)
  /\ exists names,
      detect conf self h npimg rois faces
      = Return {| output := probs; feature := feats; name := names |}
      /\ Forall2 (nan_where_zero items) feats names.
Proof.
  intros Hdb Hex. split; [exact zero_vector_norm|].
  exists (map (db_ranking items) feats).
  split; [exact (detect_db conf self h npimg rois faces Hdb Hex)|].
  clear Hex. induction feats as [|feat feats IH]; cbn [map]; constructor;
    [|exact IH].
  split; [apply db_ranking_length|].
  intros db_name db_feature Hin Hzero.
  apply (Permutation_in _ (Permutation_sym
                             (sort_reverse_perm f_lt snd (db_scores items feat)))).
  rewrite <- (similarity_zero_vector Hzero).
  unfold db_scores.
  exact (in_map (fun '(db_name, db_feature) =>
                   (db_name, similarity feat db_feature))
                items (db_name, db_feature) Hin).
Qed.

End ZeroNorm.

(** ** Concrete runs with the stub model *)

Section Runs64.
Import Float64 Stub.

(** The theorem of C2 at five regions and the batch size 4. *)
Lemma extract_features_round_trip_witness :
  exists probs feats,
    extract_features (recognizer None) fresh tt five None = Return (probs, feats)
    /\ length probs = 5 /\ length feats = 5.
Proof.
  destruct (@extract_features_round_trip float stub (recognizer None)
              fresh tt five None)
    as [_ [probs [feats [H [Hp [Hf _]]]]]].
  - cbn. lia.
  - cbn. discriminate.
  - exists probs, feats. split; [exact H|]. split; [exact Hp|exact Hf].
Defined.

(** C2, as stated, fails for the empty sequence: with no region at all
    [extract_features] raises and returns no pair of empty sequences. *)
Lemma extract_features_empty_raises :
  extract_features (recognizer None) fresh tt (Some []) None
  = Raise UnboundLocalError
  /\ ~ (exists probs feats,
          extract_features (recognizer None) fresh tt (Some []) None
          = Return (probs, feats)
          /\ length probs = 0 /\ length feats = 0).
Proof.
  split; [reflexivity|]. intros [probs [feats [H _]]]. discriminate H.
Qed.

(** The theorem of C10 with no [rois] and an empty [faces]. *)
Lemma extract_features_needs_regions_witness :
  extract_features (recognizer None) fresh tt None (Some [])
  = Raise UnboundLocalError
  /\ extract_features (recognizer None) fresh tt None (Some [])
     <> Return ([], []).
Proof.
  apply (@extract_features_needs_regions float stub (recognizer None)
           fresh tt None (Some [])); reflexivity.
Defined.

(** The theorem of C6 at [topk] = 2 and three classes. *)
Lemma detect_fallback_topk_witness :
  exists res,
    detect (confs 2) (recognizer None) fresh tt three None = Return res
    /\ output res
       = map net_prob (get_new_rois (recognizer None)
                         (input_regions fresh tt three None))
    /\ Forall2 (topk_candidates (confs 2) (recognizer None))
         (map net_prob (get_new_rois (recognizer None)
                          (input_regions fresh tt three None)))
         (name res).
Proof.
  apply (@detect_fallback_topk float float64 stub (confs 2) (recognizer None)
           fresh tt three None).
  - reflexivity.
  - reflexivity.
  - cbn. lia.
  - cbn. discriminate.
  - reflexivity.
Defined.




(** The theorem of C1 at a query that is a zero vector. *)
Lemma detect_zero_norm_unguarded_witness :
  (forall v, zero_vector v -> np_norm v = 0%float)
  /\ exists names,
      detect (confs 2) (recognizer (Some db_one)) fresh tt
             (Some [roi 0; roi 1]) None
      = Return {| output := [[0.25; 0.25; 0.5]; [0.125; 0.75; 0.125]]%float;
                  feature := [[0; 0]; [1; 0]]%float; name := names |}
      /\ Forall2 (nan_where_zero db_one) [[0; 0]; [1; 0]]%float names.
Proof.
  apply (@detect_zero_norm_unguarded stub (confs 2) (recognizer (Some db_one))
           fresh tt (Some [roi 0; roi 1]) None db_one); reflexivity.
Defined.

(** C1, as stated, fails: the query is a zero vector, of norm zero, and
    [detect] signals nothing; it returns and the score is NaN. *)
Lemma detect_zero_query_yields_nan :
  np_norm [0; 0]%float = 0%float
  /\ detect (confs 2) (recognizer (Some db_one)) fresh tt (Some [roi 0]) None
     = Return {| output := [[0.25; 0.25; 0.5]%float];
                 feature := [[0; 0]%float];
                 name := [[("ann"%string, nan)]] |}.
Proof. split; reflexivity. Qed.

(** The theorem of C8 at a face whose top score is below the threshold. *)
Lemma tag_faces_sets_feature_witness :
  face_feature (store_at (confs 2) ranked_1_2 [1; 2] fresh 2 2)
  = Some [0; 2]%float
  /\ (~ In 2 (skipn 2 [1; 2]) ->
      face_feature (fst (tag_faces (confs 2) fresh [1; 2] ranked_1_2) 2)
      = Some [0; 2]%float).
Proof.
  apply (@tag_faces_sets_feature float float64 stub (confs 2) ranked_1_2
           [1; 2] fresh 1 2 [0; 2]%float); reflexivity.
Defined.

(** The theorem of C3 at a face above the threshold and at a face below. *)
Lemma tag_faces_threshold_witness :
  (face_name (store_at (confs 2) ranked_1_2 [1; 2] fresh 1 1)
   = Some "ann"%string
   /\ face_score (store_at (confs 2) ranked_1_2 [1; 2] fresh 1 1)
      = Some 1%float)
  /\ (face_name (store_at (confs 2) ranked_1_2 [1; 2] fresh 2 2)
      = face_name (store_at (confs 2) ranked_1_2 [1; 2] fresh 1 2)
      /\ face_score (store_at (confs 2) ranked_1_2 [1; 2] fresh 2 2)
         = face_score (store_at (confs 2) ranked_1_2 [1; 2] fresh 1 2)).
Proof.
  split.
  - exact (proj1 (@tag_faces_threshold float float64 stub (confs 2) ranked_1_2
                    [1; 2] fresh 0 1 [1; 0]%float "ann"%string 1%float []
                    eq_refl eq_refl eq_refl eq_refl)).
  - exact (proj1 (@tag_faces_threshold float float64 stub (confs 2) ranked_1_2
                    [1; 2] fresh 1 2 [0; 2]%float "ann"%string 0%float []
                    eq_refl eq_refl eq_refl eq_refl)).
Defined.

(** C3, as stated, fails for a NaN score: the face at address 7 has a zero
    embedding, its top candidate has the score NaN, [NaN >= score_th] is
    false, and yet the name and score of the face are set. *)
Lemma tag_faces_nan_score_is_tagged :
  let result :=
    returned (detect (confs 2) (recognizer (Some db_one)) fresh tt None
                     (Some [7])) no_result in
  name result = [[("ann"%string, nan)]]
  /\ f_ge nan (score_th (confs 2)) = false
  /\ face_name (fresh 7) = None
  /\ face_name (fst (tag_faces (confs 2) fresh [7] result) 7)
     = Some "ann"%string
  /\ face_score (fst (tag_faces (confs 2) fresh [7] result) 7) = Some nan.
Proof. repeat split; reflexivity. Qed.

(** The theorem of C5 at two faces, one of them below the threshold. *)
Lemma tag_faces_no_match_no_error_witness :
  snd (tag_faces (confs 2) fresh [1; 2] ranked_1_2) = Return [1; 2]
  /\ face_name (fst (tag_faces (confs 2) fresh [1; 2] ranked_1_2) 2) = None.
Proof.
  destruct (@tag_faces_no_match_no_error float float64 stub (confs 2)
              ranked_1_2 fresh [1; 2]) as [Hret Hlow].
  - intros j Hj. destruct j as [|[|j]]; [| |cbn in Hj; lia];
      do 3 eexists; split; reflexivity.
  - split; [exact Hret|].
    destruct (Hlow 2) as [Hname _]; [|exact Hname].
    intros j nm score cands Hj Hn.
    destruct j as [|[|j]]; cbn in Hj; try discriminate.
    + injection Hn as _ <- _. reflexivity.
    + destruct j; discriminate.
Defined.

(** C5, as stated, fails for an empty candidate list: with an empty
    database [detect] returns no candidate for the face, and [tag_faces]
    raises. *)
Lemma tag_faces_empty_candidates_raise :
  let result :=
    returned (detect (confs 2) (recognizer (Some [])) fresh tt None (Some [1]))
             no_result in
  detect (confs 2) (recognizer (Some [])) fresh tt None (Some [1])
  = Return result
  /\ name result = [[]]
  /\ snd (tag_faces (confs 2) fresh [1] result) = Raise IndexError.
Proof. repeat split; reflexivity. Qed.

End Runs64.

(** * Further properties *)

(** ** [get_new_rois] *)

Section Resizing.
Context {F : Type} {CO : Collaborators F}.
Variable self : FaceRecognizerVGG F.

Lemma shape_test (roi : Region) :
  negb (fst (roi_shape roi) =? fst (input_hw self))
  || negb (snd (roi_shape roi) =? snd (input_hw self)) = false
  <-> roi_shape roi = input_hw self.
Proof.
  destruct (roi_shape roi) as [a b], (input_hw self) as [c d]. cbn [fst snd].
  rewrite orb_false_iff, !negb_false_iff, !Nat.eqb_eq.
  split; [intros [-> ->]; reflexivity|intros H; injection H; auto].
Qed.

(** X1 -- Regions that already have the input size pass through
    [get_new_rois] untouched: on a list of such regions it is the identity,
    and [cv2.resize] is never called. *)
Theorem get_new_rois_sized (rois : list Region) :
  Forall (fun roi => roi_shape roi = input_hw self) rois ->
  get_new_rois self rois = rois.
Proof.
  induction 1 as [|roi rois Hroi _ IH]; [reflexivity|].
  cbn [get_new_rois map]. fold (get_new_rois self rois). rewrite IH.
  apply shape_test in Hroi. now rewrite Hroi.
Qed.

Lemma get_new_rois_nth (rois : list Region) (i : nat) (roi : Region) :
  nth_error rois i = Some roi ->
  nth_error (get_new_rois self rois) i
  = Some (if negb (fst (roi_shape roi) =? fst (input_hw self))
             || negb (snd (roi_shape roi) =? snd (input_hw self))
          then cv2_resize roi (input_hw self)
          else roi).
Proof.
  intros H. unfold get_new_rois. rewrite nth_error_map. now rewrite H.
Qed.

(** X2 -- When the input size is square, every region [get_new_rois]
    returns has the input size, and a second pass changes nothing
    ([cv2.resize] giving the size it was asked for). *)
Theorem get_new_rois_square (rois : list Region) :
  cv2_size_contract ->
  fst (input_hw self) = snd (input_hw self) ->
  Forall (fun roi => roi_shape roi = input_hw self) (get_new_rois self rois)
  /\ get_new_rois self (get_new_rois self rois) = get_new_rois self rois.
Proof.
  intros Hcv Hsq.
  assert (Hall : Forall (fun roi => roi_shape roi = input_hw self)
                        (get_new_rois self rois)).
  { unfold get_new_rois. apply Forall_map, Forall_forall. intros roi _.
    destruct (negb (fst (roi_shape roi) =? fst (input_hw self))
              || negb (snd (roi_shape roi) =? snd (input_hw self))) eqn:E.
    - destruct (input_hw self) as [a b] eqn:Ehw. cbn [fst snd] in Hsq.
      subst b. apply Hcv.
    - now apply shape_test. }
  split; [exact Hall|]. now apply get_new_rois_sized.
Qed.

(** X3 -- When the input size (H, W) is not square, a region that has to be
    resized comes out with the shape (W, H), which is not the input size:
    [cv2.resize] is handed (H, W) where it reads (width, height). *)
Theorem get_new_rois_transposed (rois : list Region) (i : nat) (roi : Region) :
  cv2_size_contract ->
  fst (input_hw self) <> snd (input_hw self) ->
  nth_error rois i = Some roi ->
  roi_shape roi <> input_hw self ->
  exists roi',
    nth_error (get_new_rois self rois) i = Some roi'
    /\ roi_shape roi' = (snd (input_hw self), fst (input_hw self))
    /\ roi_shape roi' <> input_hw self.
Proof.
  intros Hcv Hns Hi Hshape.
  rewrite (get_new_rois_nth rois i Hi).
  destruct (negb (fst (roi_shape roi) =? fst (input_hw self))
            || negb (snd (roi_shape roi) =? snd (input_hw self))) eqn:E.
  2:{ apply shape_test in E. contradiction. }
  eexists. split; [reflexivity|].
  destruct (input_hw self) as [a b] eqn:Ehw. cbn [fst snd] in *.
  rewrite Hcv. split; [reflexivity|]. intros H. injection H as H1 H2.
  congruence.
Qed.

End Resizing.

(** ** [extract_features], further *)

Section Extraction.
Context {F : Type} {CO : Collaborators F}.

Lemma input_regions_nil (h : store Geometry F) (npimg : Image)
  (rois : option (list Region)) (faces : option (list nat)) :
  input_regions h npimg rois faces = [] <->
  truthy rois = false /\ truthy faces = false.
Proof.
  unfold input_regions.
  destruct rois as [[|r rs]|], faces as [[|a l]|]; cbn; intuition congruence.
Qed.

Lemma extract_features_unbound (self : FaceRecognizerVGG F)
  (h : store Geometry F) (npimg : Image)
  (rois : option (list Region)) (faces : option (list nat)) :
  truthy rois = false -> truthy faces = false ->
  extract_features self h npimg rois faces = Raise UnboundLocalError.
Proof.
  intros Hr Hf. unfold extract_features. rewrite Hr, Hf. cbn [negb andb].
  destruct rois as [[|r rs]|]; cbn in Hr; congruence.
Qed.

(** Whenever [extract_features] returns, there was a region to work on. *)
Lemma extract_features_returned (self : FaceRecognizerVGG F)
  (h : store Geometry F) (npimg : Image)
  (rois : option (list Region)) (faces : option (list nat)) r :
  extract_features self h npimg rois faces = Return r ->
  input_regions h npimg rois faces <> [].
Proof.
  intros H E. apply input_regions_nil in E as [Hr Hf].
  rewrite (extract_features_unbound self h npimg rois faces Hr Hf) in H.
  discriminate.
Qed.

(** X4 -- [rois], when given and not empty, take precedence: [faces], the
    image and the face objects are not read.  Otherwise the faces are turned
    into regions by [face_to_roi], and the result is the one for these
    regions passed as [rois]. *)
Theorem extract_features_sources (self : FaceRecognizerVGG F)
  (h h' : store Geometry F) (npimg npimg' : Image)
  (rois : option (list Region)) (faces faces' : option (list nat)) :
  (truthy rois = true ->
   extract_features self h npimg rois faces
   = extract_features self h' npimg' rois faces')
  /\ (truthy rois = false ->
      forall l, faces = Some l -> l <> [] ->
      extract_features self h npimg rois faces
      = extract_features self h' npimg' (Some (face_to_roi h npimg l)) faces').
Proof.
  split.
  - intros Hr. destruct rois as [[|r rs]|]; cbn in Hr; try discriminate.
    reflexivity.
  - intros Hr l -> Hl. destruct l as [|a l]; [congruence|].
    unfold extract_features. rewrite Hr. reflexivity.
Qed.

(** X5 -- The batch size does not show in the result: for any two batch
    sizes of at least 1, [extract_features] returns the same rows, or
    raises the same error. *)
Theorem extract_features_any_batch_size (self : FaceRecognizerVGG F)
  (h : store Geometry F) (npimg : Image)
  (rois : option (list Region)) (faces : option (list nat)) (B1 B2 : nat) :
  0 < B1 -> 0 < B2 ->
  extract_features (with_batch_size self B1) h npimg rois faces
  = extract_features (with_batch_size self B2) h npimg rois faces.
Proof.
  intros H1 H2.
  destruct (input_regions h npimg rois faces) as [|r rs] eqn:E.
  - apply input_regions_nil in E as [Hr Hf].
    now rewrite !extract_features_unbound by assumption.
  - assert (Hne : input_regions h npimg rois faces <> []) by congruence.
    rewrite (extract_features_regions (with_batch_size self B1) h npimg rois
               faces H1 Hne).
    rewrite (extract_features_regions (with_batch_size self B2) h npimg rois
               faces H2 Hne).
    reflexivity.
Qed.

End Extraction.

(** ** [detect], further *)

Section Detection.
Context {F : Type} {NP : Numpy F} {CO : Collaborators F}.

Lemma for_each_app {A B} (f : A -> outcome B) (l1 l2 : list A) ys1 ys2 :
  for_each f l1 = Return ys1 -> for_each f l2 = Return ys2 ->
  for_each f (l1 ++ l2) = Return (ys1 ++ ys2).
Proof.
  revert ys1; induction l1 as [|x l1 IH]; intros ys1 H1 H2; cbn [for_each app] in *.
  - injection H1 as <-. exact H2.
  - destruct (f x) as [y|e]; cbn [bind] in *; [|discriminate].
    destruct (for_each f l1) as [ys|e]; cbn [bind] in *; [|discriminate].
    injection H1 as <-. now rewrite (IH ys eq_refl H2).
Qed.

Lemma Forall2_Forall_r {A B} (P : B -> Prop) (l : list A) (ys : list B) :
  Forall2 (fun _ y => P y) l ys -> Forall P ys.
Proof. induction 1; constructor; auto. Qed.

Lemma slice_from_drop_length {A} (start : Z) (l : list A) :
  (0 <= start)%Z ->
  length (slice_from start l) = length l - Z.to_nat start.
Proof.
  intros Hs. unfold slice_from.
  destruct (Z.ltb_spec start 0) as [|_]; [lia|].
  rewrite length_skipn. lia.
Qed.

(** On a well-formed row the comprehension of the fallback path raises
    nothing, whatever [topk] is. *)
Lemma class_candidates_returns (conf : DeepFaceConfs F)
  (self : FaceRecognizerVGG F) (prop : list F) :
  length prop = length (class_names self) ->
  argsort_ok prop = true ->
  exists cands,
    class_candidates conf self prop = Return cands
    /\ length cands = length (slice_from (- topk conf) (np_argsort prop)).
Proof.
  intros Hlen Hok. unfold argsort_ok in Hok.
  apply andb_true_iff in Hok as [Hok _].
  apply andb_true_iff in Hok as [Hok _].
  apply andb_true_iff in Hok as [_ Hlt].
  rewrite forallb_forall in Hlt.
  destruct (@for_each_total _ _
              (fun idx => cls <- getitem (class_names self) idx ;;
                          p <- getitem prop idx ;; Return (cls, p))
              (reversed (slice_from (- topk conf) (np_argsort prop))))
    as [cands Hc].
  { intros idx Hidx. unfold reversed, slice_from in Hidx.
    apply in_rev, in_skipn, Hlt, Nat.ltb_lt in Hidx. unfold getitem.
    destruct (nth_error (class_names self) idx) as [cls|] eqn:E1.
    2:{ apply nth_error_None in E1. lia. }
    destruct (nth_error prop idx) as [p|] eqn:E2.
    2:{ apply nth_error_None in E2. lia. }
    now exists (cls, p). }
  exists cands. split; [exact Hc|].
  rewrite (for_each_length _ _ Hc). unfold reversed. apply length_rev.
Qed.

(** X6 -- With no region to work on, [detect] raises the error of
    [extract_features] before it looks at the database or the
    configuration. *)
Theorem detect_needs_regions (conf : DeepFaceConfs F)
  (self : FaceRecognizerVGG F) (h : store Geometry F) (npimg : Image)
  (rois : option (list Region)) (faces : option (list nat)) :
  truthy rois = false -> truthy faces = false ->
  detect conf self h npimg rois faces = Raise UnboundLocalError.
Proof.
  intros Hr Hf. unfold detect.
  now rewrite (extract_features_unbound self h npimg rois faces Hr Hf).
Qed.

(** The three sequences of a result, by length. *)
Lemma detect_lengths (conf : DeepFaceConfs F) (self : FaceRecognizerVGG F)
  (h : store Geometry F) (npimg : Image)
  (rois : option (list Region)) (faces : option (list nat)) (res : Result F) :
  0 < batch_size self ->
  detect conf self h npimg rois faces = Return res ->
  let n := length (input_regions h npimg rois faces) in
  0 < n
  /\ length (output res) = n
  /\ length (feature res) = n
  /\ length (name res) = n.
Proof.
  intros HB Hdet n. apply detect_inv in Hdet as [Hex Hnames].
  pose proof (extract_features_returned self h npimg rois faces Hex) as Hne.
  rewrite (extract_features_regions self h npimg rois faces HB Hne) in Hex.
  injection Hex as Ho Hf.
  assert (Hlo : length (output res) = n).
  { rewrite <- Ho, length_map. apply get_new_rois_length. }
  assert (Hlf : length (feature res) = n).
  { rewrite <- Hf, length_map. apply get_new_rois_length. }
  split; [|split; [exact Hlo|split; [exact Hlf|]]].
  - subst n. destruct (input_regions h npimg rois faces); [congruence|cbn; lia].
  - destruct (db self) as [items|].
    + now rewrite Hnames, length_map.
    + now rewrite (for_each_length _ _ Hnames).
Qed.

(** X7 -- Whenever [detect] returns, its three sequences are parallel:
    'output', 'feature' and 'name' each have one entry per input region, and
    there is at least one. *)
Theorem detect_parallel (conf : DeepFaceConfs F) (self : FaceRecognizerVGG F)
  (h : store Geometry F) (npimg : Image)
  (rois : option (list Region)) (faces : option (list nat)) (res : Result F) :
  0 < batch_size self ->
  detect conf self h npimg rois faces = Return res ->
  let n := length (input_regions h npimg rois faces) in
  0 < n
  /\ length (output res) = n
  /\ length (feature res) = n
  /\ length (name res) = n.
Proof. apply detect_lengths. Qed.


(** X9 -- Queries do not interact: when [detect] returns for two lists of
    regions, it returns for their concatenation the concatenation of the
    two results, entry by entry. *)
Theorem detect_app (conf : DeepFaceConfs F) (self : FaceRecognizerVGG F)
  (h : store Geometry F) (npimg : Image) (faces : option (list nat))
  (l1 l2 : list Region) (r1 r2 : Result F) :
  0 < batch_size self ->
  detect conf self h npimg (Some l1) faces = Return r1 ->
  detect conf self h npimg (Some l2) faces = Return r2 ->
  l1 <> [] -> l2 <> [] ->
  detect conf self h npimg (Some (l1 ++ l2)) faces
  = Return {| output := output r1 ++ output r2;
              feature := feature r1 ++ feature r2;
              name := name r1 ++ name r2 |}.
Proof.
  intros HB H1 H2 Hl1 Hl2.
  apply detect_inv in H1 as [Hex1 Hn1], H2 as [Hex2 Hn2].
  assert (Hin : forall l, l <> [] -> input_regions h npimg (Some l) faces = l).
  { intros [|r l] Hl; [congruence|reflexivity]. }
  assert (Hex : forall l, l <> [] ->
            extract_features self h npimg (Some l) faces
            = Return (map net_prob (get_new_rois self l),
                      map embed (get_new_rois self l))).
  { intros l Hl.
    rewrite (extract_features_regions self h npimg (Some l) faces HB);
      rewrite (Hin l Hl); [reflexivity|exact Hl]. }
  rewrite (Hex l1 Hl1) in Hex1. rewrite (Hex l2 Hl2) in Hex2.
  injection Hex1 as Ho1 Hf1. injection Hex2 as Ho2 Hf2.
  assert (Hl12 : l1 ++ l2 <> []).
  { destruct l1; [congruence|discriminate]. }
  unfold detect. rewrite (Hex (l1 ++ l2) Hl12). cbn [bind].
  unfold get_new_rois in *. rewrite !map_app, Ho1, Ho2, Hf1, Hf2.
  destruct (db self) as [items|].
  - cbn [bind]. now rewrite map_app, Hn1, Hn2.
  - now rewrite (for_each_app _ _ _ Hn1 Hn2).
Qed.

End Detection.

(** ** [tag_faces], further *)

Section TaggingMore.
Context {F : Type} {NP : Numpy F} {CO : Collaborators F}.
Variable conf : DeepFaceConfs F.

Lemma tag_face_outcome (result : Result F) (i a : nat) (h : store Geometry F) :
  (ranked_at result i /\ snd (tag_face conf result i a h) = Return tt)
  \/ (~ ranked_at result i
      /\ snd (tag_face conf result i a h) = Raise IndexError).
Proof.
  pose proof (tag_face_cases conf result i a h) as H. unfold ranked_at.
  destruct (nth_error (feature result) i) as [feat|].
  2:{ right. rewrite H. split; [|reflexivity].
      intros [f [c [cs [E _]]]]. discriminate. }
  destruct (nth_error (name result) i) as [[|[nm score] cands]|].
  - right. rewrite H. split; [|reflexivity].
    intros [f [c [cs [_ E]]]]. discriminate.
  - left. rewrite H. split; [|reflexivity]. now exists feat, (nm, score), cands.
  - right. rewrite H. split; [|reflexivity].
    intros [f [c [cs [_ E]]]]. discriminate.
Qed.

Lemma all_ranked_cons (result : Result F) (i a : nat) (rest : list nat) :
  ranked_at result i -> all_ranked result (S i) rest ->
  all_ranked result i (a :: rest).
Proof.
  intros H0 Hrest [|j] Hj.
  - rewrite Nat.add_0_r. exact H0.
  - replace (i + S j) with (S i + j) by lia. apply Hrest. cbn in Hj. lia.
Qed.

Lemma all_ranked_head (result : Result F) (i a : nat) (rest : list nat) :
  all_ranked result i (a :: rest) -> ranked_at result i.
Proof.
  intros H. specialize (H 0). rewrite Nat.add_0_r in H. apply H. cbn. lia.
Qed.

Lemma tag_loop_outcome (result : Result F) (faces : list nat) :
  forall i (h : store Geometry F),
  (all_ranked result i faces
   /\ snd (tag_loop conf result i faces h) = Return tt)
  \/ (~ all_ranked result i faces
      /\ snd (tag_loop conf result i faces h) = Raise IndexError).
Proof.
  induction faces as [|a rest IH]; intros i h.
  - left. split; [|reflexivity]. intros j Hj. cbn in Hj. lia.
  - cbn [tag_loop].
    destruct (tag_face_outcome result i a h) as [[Hr Ho]|[Hr Ho]];
      destruct (tag_face conf result i a h) as [h1 o]; cbn [snd] in Ho;
      subst o.
    + destruct (IH (S i) h1) as [[Hall Ho]|[Hall Ho]].
      * left. split; [now apply all_ranked_cons|exact Ho].
      * right. split; [|exact Ho].
        intros H. apply Hall. exact (all_ranked_tail H).
    + right. split; [|reflexivity].
      intros H. apply Hr. exact (all_ranked_head H).
Qed.

(** X10 -- [tag_faces] returns the faces exactly when every face index has
    a feature and a non-empty candidate list in [result]; in every other
    case -- fewer features or candidate lists than faces, or an empty
    candidate list -- it raises [IndexError]. *)
Theorem tag_faces_outcome (result : Result F) (h : store Geometry F)
  (faces : list nat) :
  (snd (tag_faces conf h faces result) = Return faces
   <-> all_ranked result 0 faces)
  /\ (snd (tag_faces conf h faces result) = Return faces
      \/ snd (tag_faces conf h faces result) = Raise IndexError).
Proof.
  destruct (tag_faces_loop conf result h faces) as [_ ->].
  destruct (tag_loop_outcome result faces 0 h) as [[Hall Ho]|[Hall Ho]];
    rewrite Ho; cbn [bind].
  - split; [tauto|now left].
  - split; [|now right]. split; [discriminate|contradiction].
Qed.

(** X11 -- [tag_faces] touches no face object outside [faces]. *)
Theorem tag_faces_frame (result : Result F) (h : store Geometry F)
  (faces : list nat) (b : nat) :
  ~ In b faces -> fst (tag_faces conf h faces result) b = h b.
Proof.
  intros Hb. destruct (tag_faces_loop conf result h faces) as [-> _].
  now apply tag_loop_untouched.
Qed.

Lemma or_else_kept {A} (new old : option A) :
  old <> None -> or_else new old <> None.
Proof. destruct new; [discriminate|auto]. Qed.

(** X12 -- [tag_faces] never changes the geometry of a face and never
    unsets an attribute: a face that had a feature, a name or a score
    before the call has one after it. *)
Theorem tag_faces_keeps (result : Result F) (h : store Geometry F)
  (faces : list nat) (b : nat) :
  geometry (fst (tag_faces conf h faces result) b) = geometry (h b)
  /\ (face_feature (h b) <> None ->
      face_feature (fst (tag_faces conf h faces result) b) <> None)
  /\ (face_name (h b) <> None ->
      face_name (fst (tag_faces conf h faces result) b) <> None)
  /\ (face_score (h b) <> None ->
      face_score (fst (tag_faces conf h faces result) b) <> None).
Proof.
  destruct (tag_faces_loop conf result h faces) as [-> _].
  destruct (tag_loop_patch conf result faces 0) as [P [o HP]].
  destruct (HP h) as [_ Hh]. rewrite Hh. unfold apply_patch. cbn.
  repeat split; apply or_else_kept.
Qed.

Lemma consistent_feature (x : Face Geometry F) (feat : list F) :
  consistent x -> consistent (set_face_feature feat x).
Proof.
  intros [H1 H2]. split; cbn; [exact H1|discriminate].
Qed.

Lemma consistent_tagged (x : Face Geometry F) (feat : list F) (nm : string)
  (score : F) :
  consistent (set_face_score score
                (set_face_name nm (set_face_feature feat x))).
Proof. split; cbn; [split; discriminate|discriminate]. Qed.

Lemma tag_face_consistent (result : Result F) (i a : nat)
  (h : store Geometry F) :
  (forall b, consistent (h b)) ->
  forall b, consistent (fst (tag_face conf result i a h) b).
Proof.
  intros Hh b. pose proof (tag_face_cases conf result i a h) as H.
  destruct (nth_error (feature result) i) as [feat|];
    [|rewrite H; apply Hh].
  assert (H1 : consistent (update h a (set_face_feature feat) b)).
  { unfold update. destruct (b =? a); [apply consistent_feature|]; apply Hh. }
  destruct (nth_error (name result) i) as [[|[nm score] cands]|];
    rewrite H; cbn [fst]; try exact H1.
  destruct (f_lt score (score_th conf)); [exact H1|].
  unfold update. destruct (b =? a); [apply consistent_tagged|apply Hh].
Qed.

(** X13 -- [tag_faces] keeps the faces consistent: if before the call every
    face has a name exactly when it has a score, and a feature whenever it
    has a name, so it is after the call, also when the call raises. *)
Theorem tag_faces_consistent (result : Result F) (h : store Geometry F)
  (faces : list nat) :
  (forall b, consistent (h b)) ->
  forall b, consistent (fst (tag_faces conf h faces result) b).
Proof.
  destruct (tag_faces_loop conf result h faces) as [-> _].
  generalize 0. revert h.
  induction faces as [|a rest IH]; intros h i Hh b; [apply Hh|].
  cbn [tag_loop].
  pose proof (tag_face_consistent result i a h Hh) as H1.
  destruct (tag_face conf result i a h) as [h1 [[]|e]]; cbn [fst] in *.
  - now apply IH.
  - apply H1.
Qed.

Lemma top_candidate_firstn (r1 r2 : Result F) (i : nat) :
  map (firstn 1) (name r1) = map (firstn 1) (name r2) ->
  top_candidate r1 i = top_candidate r2 i.
Proof.
  intros H. apply (f_equal (fun l => nth_error l i)) in H.
  rewrite !nth_error_map in H. unfold top_candidate, getitem.
  destruct (nth_error (name r1) i) as [[|c1 l1]|],
           (nth_error (name r2) i) as [[|c2 l2]|];
    cbn in H |- *; congruence.
Qed.

Lemma tag_face_top_only (r1 r2 : Result F) (i a : nat) (h : store Geometry F) :
  feature r1 = feature r2 ->
  map (firstn 1) (name r1) = map (firstn 1) (name r2) ->
  tag_face conf r1 i a h = tag_face conf r2 i a h.
Proof.
  intros Hf Hn. unfold tag_face. rewrite Hf.
  fold (top_candidate r1 i). fold (top_candidate r2 i).
  now rewrite (top_candidate_firstn r1 r2 i Hn).
Qed.

(** X14 -- [tag_faces] reads only the top entry of each candidate list:
    two results with the same features and the same top candidates give the
    same store and the same outcome. *)
Theorem tag_faces_top_only (r1 r2 : Result F) (h : store Geometry F)
  (faces : list nat) :
  feature r1 = feature r2 ->
  map (firstn 1) (name r1) = map (firstn 1) (name r2) ->
  tag_faces conf h faces r1 = tag_faces conf h faces r2.
Proof.
  intros Hf Hn. unfold tag_faces.
  assert (E : forall i (h : store Geometry F),
             tag_loop conf r1 i faces h = tag_loop conf r2 i faces h).
  { induction faces as [|a rest IH]; intros i h0; [reflexivity|].
    cbn [tag_loop]. rewrite (tag_face_top_only r1 r2 i a h0 Hf Hn).
    destruct (tag_face conf r2 i a h0) as [h1 [[]|e]]; [apply IH|reflexivity]. }
  now rewrite E.
Qed.

Lemma tag_loop_features (result : Result F) (faces : list nat) :
  forall i (h : store Geometry F),
  all_ranked result i faces ->
  forall a, In a faces ->
    face_feature (fst (tag_loop conf result i faces h) a) <> None.
Proof.
  induction faces as [|b rest IH]; intros i h Hall a Ha; [destruct Ha|].
  cbn [tag_loop]. pose proof (tag_face_cases conf result i b h) as H.
  destruct (all_ranked_head Hall) as [feat [[nm score] [cands [Hf Hn]]]].
  rewrite Hf, Hn in H. rewrite H.
  match goal with
  | |- context [tag_loop conf result (S i) rest ?hx] => set (h1 := hx)
  end.
  destruct (in_dec Nat.eq_dec a rest) as [Hin|Hout].
  - apply IH; [exact (all_ranked_tail Hall)|exact Hin].
  - rewrite tag_loop_untouched by exact Hout.
    destruct Ha as [->|Ha]; [|contradiction].
    subst h1. destruct (f_lt score (score_th conf));
      rewrite !update_same; discriminate.
Qed.

End TaggingMore.

(** ** [detect], then [tag_faces] *)

Section Pipeline.
Context {F : Type} {NP : Numpy F} {CO : Collaborators F}.

Lemma sort_reverse_nil {A K} (lt : K -> K -> bool) (key : A -> K) (l : list A) :
  sort_reverse lt key l = [] -> l = [].
Proof.
  intros H. apply length_zero_iff_nil.
  rewrite <- (sort_reverse_length lt key l). now rewrite H.
Qed.

(** X15 -- With an empty database [detect] returns an empty candidate list
    for every query, and [tag_faces] raises [IndexError] on that result for
    any face at all, under every configuration. *)
Theorem detect_empty_db_then_tag (conf conf' : DeepFaceConfs F)
  (self : FaceRecognizerVGG F) (h h' : store Geometry F) (npimg : Image)
  (rois : option (list Region)) (faces : option (list nat)) (res : Result F)
  (a : nat) (rest : list nat) :
  db self = Some [] ->
  detect conf self h npimg rois faces = Return res ->
  Forall (fun cands => cands = []) (name res)
  /\ snd (tag_faces conf' h' (a :: rest) res) = Raise IndexError.
Proof.
  intros Hdb Hdet. apply detect_inv in Hdet as [_ Hn]. rewrite Hdb in Hn.
  assert (Hall : Forall (fun cands => cands = []) (name res)).
  { rewrite Hn. apply Forall_map, Forall_forall. intros feat _. reflexivity. }
  split; [exact Hall|].
  destruct (tag_faces_loop conf' res h' (a :: rest)) as [_ ->].
  cbn [tag_loop]. pose proof (tag_face_cases conf' res 0 a h') as H.
  destruct (nth_error (feature res) 0) as [feat|]; [|now rewrite H].
  destruct (nth_error (name res) 0) as [[|c cands]|] eqn:E;
    try (now rewrite H).
  apply nth_error_In in E. rewrite Forall_forall in Hall.
  specialize (Hall _ E). discriminate.
Qed.

(** What makes [tag_faces] succeed on the result of [detect] for the same
    faces: non-empty candidate lists. *)
Lemma detect_faces_ranked (conf : DeepFaceConfs F) (self : FaceRecognizerVGG F)
  (h : store Geometry F) (npimg : Image) (rois : option (list Region))
  (fl : list nat) (res : Result F) :
  0 < batch_size self ->
  truthy rois = false ->
  detect conf self h npimg rois (Some fl) = Return res ->
  Forall (fun cands => cands <> []) (name res) ->
  all_ranked res 0 fl.
Proof.
  intros HB Hr Hdet Hne.
  assert (Hreg : length (input_regions h npimg rois (Some fl)) = length fl).
  { unfold input_regions.
    destruct rois as [[|r rs]|]; cbn in Hr; try discriminate;
      destruct fl; cbn; now rewrite ?length_map. }
  destruct (detect_lengths conf self h npimg rois (Some fl) HB Hdet)
    as [_ [_ [Hlf Hln]]].
  rewrite Hreg in Hlf, Hln.
  intros j Hj. cbn [Nat.add].
  destruct (nth_error (feature res) j) as [feat|] eqn:Ef.
  2:{ apply nth_error_None in Ef. lia. }
  destruct (nth_error (name res) j) as [cands|] eqn:En.
  2:{ apply nth_error_None in En. lia. }
  rewrite Forall_forall in Hne. pose proof (Hne _ (nth_error_In _ _ En)) as Hc.
  destruct cands as [|c cands]; [congruence|]. now exists feat, c, cands.
Qed.

Lemma tag_faces_ranked (conf : DeepFaceConfs F) (res : Result F)
  (h : store Geometry F) (fl : list nat) :
  all_ranked res 0 fl ->
  snd (tag_faces conf h fl res) = Return fl
  /\ forall a, In a fl ->
       face_feature (fst (tag_faces conf h fl res) a) <> None.
Proof.
  intros Hall. destruct (tag_faces_loop conf res h fl) as [-> ->].
  rewrite (tag_loop_returns conf h Hall). split; [reflexivity|].
  now apply tag_loop_features.
Qed.

(** X16 -- With a database of at least one entry, [detect] on a non-empty
    list of faces followed by [tag_faces] on the same faces raises nothing:
    [tag_faces] returns the faces, and every one of them has a feature. *)
Theorem detect_then_tag_db (conf conf' : DeepFaceConfs F)
  (self : FaceRecognizerVGG F) (h h' : store Geometry F) (npimg : Image)
  (rois : option (list Region)) (fl : list nat)
  (item : string * list F) (items : list (string * list F)) :
  db self = Some (item :: items) ->
  0 < batch_size self ->
  truthy rois = false ->
  fl <> [] ->
  exists res,
    detect conf self h npimg rois (Some fl) = Return res
    /\ snd (tag_faces conf' h' fl res) = Return fl
    /\ forall a, In a fl ->
         face_feature (fst (tag_faces conf' h' fl res) a) <> None.
Proof.
  intros Hdb HB Hr Hfl.
  assert (Hne : input_regions h npimg rois (Some fl) <> []).
  { intros E. apply input_regions_nil in E as [_ E].
    destruct fl; [congruence|discriminate]. }
  pose proof (extract_features_regions self h npimg rois (Some fl) HB Hne)
    as Hex.
  pose proof (detect_db conf self h npimg rois (Some fl) Hdb Hex) as Hdet.
  eexists. split; [exact Hdet|].
  apply tag_faces_ranked.
  apply (detect_faces_ranked conf self h npimg rois fl HB Hr Hdet).
  cbn [name]. apply Forall_map, Forall_forall. intros feat _ E.
  pose proof (db_ranking_length (item :: items) feat) as Hl.
  rewrite E in Hl. discriminate.
Qed.

(** X17 -- On the fallback path, with [topk] >= 1 and at least one class,
    [detect] on a non-empty list of faces followed by [tag_faces] on the
    same faces raises nothing either (the rows being well-formed). *)
Theorem detect_then_tag_fallback (conf conf' : DeepFaceConfs F)
  (self : FaceRecognizerVGG F) (h h' : store Geometry F) (npimg : Image)
  (rois : option (list Region)) (fl : list nat) :
  db self = None ->
  (0 < topk conf)%Z ->
  class_names self <> [] ->
  0 < batch_size self ->
  truthy rois = false ->
  fl <> [] ->
  forallb (fun prop => (length prop =? length (class_names self))
                       && argsort_ok prop)
          (map net_prob (get_new_rois self
                           (input_regions h npimg rois (Some fl))))
  = true ->
  exists res,
    detect conf self h npimg rois (Some fl) = Return res
    /\ snd (tag_faces conf' h' fl res) = Return fl
    /\ forall a, In a fl ->
         face_feature (fst (tag_faces conf' h' fl res) a) <> None.
Proof.
  intros Hdb Hk Hcn HB Hr Hfl Hrows.
  assert (Hne : input_regions h npimg rois (Some fl) <> []).
  { intros E. apply input_regions_nil in E as [_ E].
    destruct fl; [congruence|discriminate]. }
  pose proof (extract_features_regions self h npimg rois (Some fl) HB Hne)
    as Hex.
  rewrite forallb_forall in Hrows.
  destruct (@for_each_Forall2 _ _ (fun _ cands => cands <> [])
              (class_candidates conf self)
              (map net_prob (get_new_rois self
                               (input_regions h npimg rois (Some fl)))))
    as [names [Hnames HF]].
  { intros prop Hprop. specialize (Hrows prop Hprop).
    apply andb_true_iff in Hrows as [Hlen Hok]. apply Nat.eqb_eq in Hlen.
    destruct (class_candidates_topk conf self prop Hk Hlen Hok)
      as [cands [Hc [Hl _]]].
    exists cands. split; [exact Hc|]. intros E. rewrite E in Hl. cbn in Hl.
    destruct (class_names self); [congruence|cbn in Hl; lia]. }
  assert (Hdet : detect conf self h npimg rois (Some fl)
                 = Return {| output := map net_prob
                               (get_new_rois self
                                  (input_regions h npimg rois (Some fl)));
                             feature := map embed
                               (get_new_rois self
                                  (input_regions h npimg rois (Some fl)));
                             name := names |}).
  { unfold detect. rewrite Hex, Hdb. cbn [bind]. now rewrite Hnames. }
  eexists. split; [exact Hdet|].
  apply tag_faces_ranked.
  apply (detect_faces_ranked conf self h npimg rois fl HB Hr Hdet).
  cbn [name]. exact (Forall2_Forall_r _ HF).
Qed.

End Pipeline.

(** ** The network of the constructor *)

Section Network.
Import Net.
Variables Kernel Bias Average : Type.
Variable num_classes : nat.

Local Abbreviation layer := (Net.layer Kernel Bias).
Local Abbreviation node := (Net.node Kernel Bias Average).

Lemma build_get_other (n : string) (layers : list layer) :
  forall (current : node) network,
  ~ In n (map (@layer_name _ _) layers) ->
  dict_get n (snd (build num_classes layers current network))
  = dict_get n network.
Proof.
  induction layers as [|l rest IH]; intros current network Hn; [reflexivity|].
  cbn [build]. rewrite IH.
  - unfold dict_set. cbn [dict_get].
    destruct (String.eqb_spec (layer_name l) n) as [E|_]; [|reflexivity].
    exfalso. apply Hn. left. exact E.
  - intros Hin. apply Hn. right. exact Hin.
Qed.

Lemma build_get_last (before after : list layer) (l : layer) :
  forall (current : node) network,
  ~ In (layer_name l) (map (@layer_name _ _) after) ->
  dict_get (layer_name l)
           (snd (build num_classes (before ++ l :: after) current network))
  = Some (fold_left (fun current l => add_layer num_classes l current)
                    (before ++ [l]) current).
Proof.
  induction before as [|b before IH]; intros current network Hl.
  - cbn [app build fold_left]. rewrite build_get_other by exact Hl.
    unfold dict_set. cbn [dict_get]. now rewrite String.eqb_refl.
  - cbn [app build fold_left]. now apply IH.
Qed.

Lemma last_layer_named (n : string) (layers : list layer) :
  In n (map (@layer_name _ _) layers) ->
  exists before l after,
    layers = before ++ l :: after
    /\ layer_name l = n
    /\ ~ In n (map (@layer_name _ _) after).
Proof.
  induction layers as [|x rest IH]; intros Hn; [destruct Hn|].
  destruct (in_dec string_dec n (map (@layer_name _ _) rest)) as [Hin|Hout].
  - destruct (IH Hin) as [before [l [after [-> [Hl Ha]]]]].
    now exists (x :: before), l, after.
  - destruct Hn as [Hx|Hn]; [|contradiction].
    now exists [], x, rest.
Qed.

(** X18 -- The network the constructor builds has a node for a name
    exactly when the weight file has a layer of that name: looking up any
    other name, as the warm-up and [extract_features] do for 'prob' and
    'fc7', fails. *)
Theorem network_keys (average_image : Average) (layers : list layer)
  (n : string) :
  dict_get n (network_of average_image num_classes layers) <> None
  <-> In n (map (@layer_name _ _) layers).
Proof.
  unfold network_of. split.
  - intros H.
    destruct (in_dec string_dec n (map (@layer_name _ _) layers)) as [Hin|Hout];
      [exact Hin|].
    rewrite build_get_other in H by exact Hout. now cbn in H.
  - intros Hin.
    destruct (last_layer_named n layers Hin) as [before [l [after [-> [<- Ha]]]]].
    rewrite build_get_last by exact Ha. discriminate.
Qed.

(** X19 -- The node registered under a layer's name is the output of that
    layer, computed from the normalized image through the layers up to and
    including it -- later layers do not change it, unless one of them has
    the same name. *)
Theorem network_node (average_image : Average)
  (before after : list layer) (l : layer) :
  ~ In (layer_name l) (map (@layer_name _ _) after) ->
  dict_get (layer_name l)
           (network_of average_image num_classes (before ++ l :: after))
  = Some (forward average_image num_classes (before ++ [l])).
Proof.
  intros Hl. unfold network_of, forward. now apply build_get_last.
Qed.

End Network.

(** ** Concrete runs for the further properties *)

Section Runs64More.
Import Float64 Stub.

(** The theorem of X1 at two regions of the input size. *)
Lemma get_new_rois_sized_witness :
  @get_new_rois float stub (recognizer None) [roi 1; roi 2] = [roi 1; roi 2].
Proof.
  apply (@get_new_rois_sized float stub (recognizer None) [roi 1; roi 2]).
  repeat constructor.
Defined.

(** The theorem of X2 at a region to resize and a region of the input
    size. *)
Lemma get_new_rois_square_witness :
  Forall (fun r => @roi_shape float StubCv.stub_cv r = input_hw (recognizer None))
         (@get_new_rois float StubCv.stub_cv (recognizer None) [((100, 80), 1); roi 2])
  /\ @get_new_rois float StubCv.stub_cv (recognizer None)
       (@get_new_rois float StubCv.stub_cv (recognizer None) [((100, 80), 1); roi 2])
     = @get_new_rois float StubCv.stub_cv (recognizer None) [((100, 80), 1); roi 2].
Proof.
  apply (@get_new_rois_square float StubCv.stub_cv (recognizer None)
           [((100, 80), 1); roi 2]).
  - intros r w h. reflexivity.
  - reflexivity.
Defined.

(** The theorem of X3 at the input size (224, 200). *)
Lemma get_new_rois_transposed_witness :
  exists r',
    nth_error (@get_new_rois float StubCv.stub_cv StubCv.wide [((100, 80), 1)]) 0 = Some r'
    /\ @roi_shape float StubCv.stub_cv r' = (200, 224)
    /\ @roi_shape float StubCv.stub_cv r' <> (224, 200).
Proof.
  apply (@get_new_rois_transposed float StubCv.stub_cv StubCv.wide [((100, 80), 1)] 0
           ((100, 80), 1)).
  - intros r w h. reflexivity.
  - cbn. lia.
  - reflexivity.
  - cbn. congruence.
Defined.

(** The theorem of X5 at the batch sizes 1 and 4. *)
Lemma extract_features_any_batch_size_witness :
  extract_features (with_batch_size (recognizer None) 1) fresh tt five None
  = extract_features (with_batch_size (recognizer None) 4) fresh tt five None.
Proof.
  apply (@extract_features_any_batch_size float stub (recognizer None) fresh tt
           five None 1 4); lia.
Defined.

(** The theorem of X6 with an empty list of faces. *)
Lemma detect_needs_regions_witness :
  detect (confs 2) (recognizer (Some db_one)) fresh tt None (Some [])
  = Raise UnboundLocalError.
Proof.
  apply (@detect_needs_regions float float64 stub (confs 2)
           (recognizer (Some db_one)) fresh tt None (Some [])); reflexivity.
Defined.

(** The theorem of X7 at three regions. *)
Lemma detect_parallel_witness :
  let res := returned (detect (confs 2) (recognizer (Some db_ties)) fresh tt
                              three None) no_result in
  0 < 3
  /\ length (output res) = 3
  /\ length (feature res) = 3
  /\ length (name res) = 3.
Proof.
  intros res.
  apply (@detect_parallel float float64 stub (confs 2)
           (recognizer (Some db_ties)) fresh tt three None res).
  - cbn. lia.
  - reflexivity.
Defined.


(** The theorem of X9 at one region followed by two. *)
Lemma detect_app_witness :
  let r1 := returned (detect (confs 2) (recognizer (Some db_ties)) fresh tt
                             (Some [roi 1]) None) no_result in
  let r2 := returned (detect (confs 2) (recognizer (Some db_ties)) fresh tt
                             (Some [roi 2; roi 3]) None) no_result in
  detect (confs 2) (recognizer (Some db_ties)) fresh tt
         (Some ([roi 1] ++ [roi 2; roi 3])) None
  = Return {| output := output r1 ++ output r2;
              feature := feature r1 ++ feature r2;
              name := name r1 ++ name r2 |}.
Proof.
  intros r1 r2.
  apply (@detect_app float float64 stub (confs 2) (recognizer (Some db_ties))
           fresh tt None [roi 1] [roi 2; roi 3] r1 r2).
  - cbn. lia.
  - reflexivity.
  - reflexivity.
  - discriminate.
  - discriminate.
Defined.

(** The theorem of X11 at a face that is not in the list. *)
Lemma tag_faces_frame_witness :
  fst (tag_faces (confs 2) fresh [1; 2] ranked_1_2) 3 = fresh 3.
Proof.
  apply (@tag_faces_frame float float64 stub (confs 2) ranked_1_2 fresh
           [1; 2] 3).
  cbn. intros [H|[H|[]]]; discriminate.
Defined.

(** The theorem of X13 on the fresh store. *)
Lemma tag_faces_consistent_witness :
  consistent (fst (tag_faces (confs 2) fresh [1; 2] ranked_1_2) 1).
Proof.
  apply (@tag_faces_consistent float float64 stub (confs 2) ranked_1_2 fresh
           [1; 2]).
  intros b. split; cbn; [tauto|congruence].
Defined.

(** The theorem of X14 at a result and the same result cut down to its top
    candidates. *)
Lemma tag_faces_top_only_witness :
  let r1 := returned (detect (confs 2) (recognizer (Some db_ties)) fresh tt
                             None (Some [1; 2])) no_result in
  let r2 := {| output := output r1; feature := feature r1;
               name := map (firstn 1) (name r1) |} in
  tag_faces (confs 2) fresh [1; 2] r1 = tag_faces (confs 2) fresh [1; 2] r2.
Proof.
  intros r1 r2.
  apply (@tag_faces_top_only float float64 stub (confs 2) r1 r2 fresh [1; 2]);
    reflexivity.
Defined.

(** The theorem of X15 at one face. *)
Lemma detect_empty_db_then_tag_witness :
  let res := returned (detect (confs 2) (recognizer (Some [])) fresh tt None
                              (Some [1])) no_result in
  Forall (fun cands : list (string * float) => cands = []) (name res)
  /\ snd (tag_faces (confs 2) fresh [1] res) = Raise IndexError.
Proof.
  intros res.
  apply (@detect_empty_db_then_tag float float64 stub (confs 2) (confs 2)
           (recognizer (Some [])) fresh fresh tt None (Some [1]) res 1 []);
    reflexivity.
Defined.

(** The theorem of X16 at two faces and a database of one entry. *)
Lemma detect_then_tag_db_witness :
  exists res,
    detect (confs 2) (recognizer (Some db_one)) fresh tt None (Some [1; 2])
    = Return res
    /\ snd (tag_faces (confs 2) fresh [1; 2] res) = Return [1; 2]
    /\ forall a, In a [1; 2] ->
         face_feature (fst (tag_faces (confs 2) fresh [1; 2] res) a) <> None.
Proof.
  apply (@detect_then_tag_db float float64 stub (confs 2) (confs 2)
           (recognizer (Some db_one)) fresh fresh tt None [1; 2]
           ("ann"%string, [1; 0]%float) []).
  - reflexivity.
  - cbn. lia.
  - reflexivity.
  - discriminate.
Defined.

(** The theorem of X17 at two faces and three classes. *)
Lemma detect_then_tag_fallback_witness :
  exists res,
    detect (confs 2) (recognizer None) fresh tt None (Some [1; 2]) = Return res
    /\ snd (tag_faces (confs 2) fresh [1; 2] res) = Return [1; 2]
    /\ forall a, In a [1; 2] ->
         face_feature (fst (tag_faces (confs 2) fresh [1; 2] res) a) <> None.
Proof.
  apply (@detect_then_tag_fallback float float64 stub (confs 2) (confs 2)
           (recognizer None) fresh fresh tt None [1; 2]).
  - reflexivity.
  - reflexivity.
  - discriminate.
  - cbn. lia.
  - reflexivity.
  - discriminate.
  - reflexivity.
Defined.

(** The theorem of X19 at the layer 'fc7' of a small network: its node is
    the convolution with VALID padding and its bias, before 'relu7'. *)
Lemma network_node_witness :
  Net.dict_get "fc7" (Net.network_of tt 3 StubCv.layers7)
  = Some (Net.bias_add
            (Net.conv2d
               (Net.max_pool
                  (Net.relu
                     (Net.bias_add
                        (Net.conv2d (Net.subtract (Net.image _ _ _) tt) tt
                                    (1, 1, 1, 1) Net.SAME) tt))
                  (1, 2, 2, 1) (1, 2, 2, 1) Net.SAME)
               tt (1, 1, 1, 1) Net.VALID) tt).
Proof.
  apply (@network_node unit unit unit 3 tt (firstn 3 StubCv.layers7)
           (skipn 4 StubCv.layers7)
           {| Net.layer_name := "fc7"; Net.fields := Net.Conv (1, 1) tt tt |}).
  cbn. intros H. repeat (destruct H as [H|H]; [discriminate|]). exact H.
Defined.

End Runs64More.
